(** * Pizza.cpp: the pizzeria ordering simulator

    A shallow embedding of [src/Pizza.cpp] and the properties of its order
    model: prices and totals, the custom-pizza builder, the observer
    notifications and payment strategies of [Order::checkout], and the
    console dialogue of [main]. *)

From Stdlib Require Import ZArith List String Bool Lia DecimalString Permutation.
From Stdlib Require Floats.
Import ListNotations.

Local Open Scope string_scope.
Local Open Scope list_scope.
Local Open Scope Z_scope.

(** ** The [double] values of the program

    Every [double] of the program is obtained from the literals 0, 8, 10, 12,
    40 and 50 by [+=].  Such values are integers, or an infinity once a sum
    leaves the range of the type.  A finite value is kept as its integer
    ([Fin z] stands for a double when [z] is one; the two zeros are not told
    apart); [round_int] is the IEEE 754 binary64 rounding, to nearest with
    ties to even, of an exact integer result. *)
Module Double.

Inductive double : Type :=
| Fin (z : Z)
| PInf
| NInf
| NaN.

(** Precision of the significand and the first power of two that is not
    finite. *)
Definition prec : Z := 53.
Definition emax : Z := 1024.

(** Rounding of a non-negative integer to a multiple of [2^e] with at most
    [prec] significant bits. *)
Definition round_nat (n : Z) : Z :=
  if n <? 2 ^ prec then n
  else
    let e := Z.log2 n - (prec - 1) in
    let q := n / 2 ^ e in
    let r := n mod 2 ^ e in
    let half := 2 ^ (e - 1) in
    let q' := if r <? half then q
              else if half <? r then q + 1
              else if Z.even q then q else q + 1 in
    q' * 2 ^ e.

Definition round_int (n : Z) : double :=
  if 0 <=? n then
    let m := round_nat n in
    if m <? 2 ^ emax then Fin m else PInf
  else
    let m := round_nat (- n) in
    if m <? 2 ^ emax then Fin (- m) else NInf.

(** [a + b] on doubles. *)
Definition add (a b : double) : double :=
  match a, b with
  | Fin x, Fin y => round_int (x + y)
  | NaN, _ | _, NaN => NaN
  | PInf, NInf | NInf, PInf => NaN
  | PInf, _ | _, PInf => PInf
  | NInf, _ | _, NInf => NInf
  end.

(** [0 <= a] on doubles (false on a NaN). *)
Definition nonneg (a : double) : bool :=
  match a with
  | Fin z => 0 <=? z
  | PInf => true
  | NInf | NaN => false
  end.

(** The machine's binary64 value of a [double], for integers that are
    doubles: the significand goes through [of_uint63], exactly, and the
    exponent through [ldexp]. *)
Definition binary64 (d : double) : PrimFloat.float :=
  match d with
  | Fin z =>
      let a := Z.abs z in
      let e := Z.max 0 (Z.log2 a - (prec - 1)) in
      let m := FloatOps.Z.ldexp
                 (PrimFloat.of_uint63 (Uint63.of_Z (a / 2 ^ e))) e in
      if 0 <=? z then m else PrimFloat.opp m
  | PInf => PrimFloat.infinity
  | NInf => PrimFloat.neg_infinity
  | NaN => PrimFloat.nan
  end.

(** [add] computes what the machine's addition computes on [x] and [y]. *)
Definition agrees (x y : Z) : bool :=
  SpecFloat.SFeqb
    (FloatOps.Prim2SF (PrimFloat.add (binary64 (Fin x)) (binary64 (Fin y))))
    (FloatOps.Prim2SF (binary64 (add (Fin x) (Fin y)))).

End Double.

Import Double.

(** ** Pizzas (lines 8-52) *)

(** The classes derived from [Pizza]; [getName] and [getPrice] are the
    virtual methods. *)
Inductive Pizza : Type :=
| CustomPizza (name : string) (price : double)
| PepperoniPizza
| HawaiianPizza.

Definition getName (p : Pizza) : string :=
  match p with
  | CustomPizza n _ => n
  | PepperoniPizza => "Pizza Pepperoni"
  | HawaiianPizza => "Pizza Hawaiana"
  end.

Definition getPrice (p : Pizza) : double :=
  match p with
  | CustomPizza _ pr => pr
  | PepperoniPizza => Fin 40
  | HawaiianPizza => Fin 50
  end.

(** ** The builder (lines 56-79) *)

Record PizzaBuilder : Type := mkPizzaBuilder {
  b_name : string;
  b_price : double
}.

(** The member initialisers of a fresh builder. *)
Definition newPizzaBuilder : PizzaBuilder :=
  mkPizzaBuilder "Pizza Personalizada" (Fin 0).

Definition addCheese (b : PizzaBuilder) : PizzaBuilder :=
  mkPizzaBuilder (b_name b) (add (b_price b) (Fin 10)).

Definition addPepperoni (b : PizzaBuilder) : PizzaBuilder :=
  mkPizzaBuilder (b_name b) (add (b_price b) (Fin 12)).

Definition addPineapple (b : PizzaBuilder) : PizzaBuilder :=
  mkPizzaBuilder (b_name b) (add (b_price b) (Fin 8)).

Definition build (b : PizzaBuilder) : Pizza :=
  CustomPizza (b_name b) (b_price b).

(** The ingredient operations, as the data of a sequence of calls. *)
Inductive Ingredient : Type := Cheese | Pepperoni | Pineapple.

Definition addIngredient (b : PizzaBuilder) (i : Ingredient) : PizzaBuilder :=
  match i with
  | Cheese => addCheese b
  | Pepperoni => addPepperoni b
  | Pineapple => addPineapple b
  end.

Definition addAll (b : PizzaBuilder) (l : list Ingredient) : PizzaBuilder :=
  fold_left addIngredient l b.

Definition is_cheese (i : Ingredient) : bool :=
  match i with Cheese => true | _ => false end.
Definition is_pepperoni (i : Ingredient) : bool :=
  match i with Pepperoni => true | _ => false end.
Definition is_pineapple (i : Ingredient) : bool :=
  match i with Pineapple => true | _ => false end.

Definition count (f : Ingredient -> bool) (l : list Ingredient) : Z :=
  Z.of_nat (List.length (filter f l)).

(** The exact price of a sequence of additions, in the integers. *)
Definition exactPrice (l : list Ingredient) : Z :=
  10 * count is_cheese l + 12 * count is_pepperoni l
  + 8 * count is_pineapple l.

(** ** The console and the calls through interfaces

    What [cout << x] writes is kept as the operand itself: a string literal
    as the source spells it (escape sequences included), a [double] or
    [endl].  A trace lists the writes to [cout] together with the
    calls made through the interfaces [Observer], [Payment] and to the
    external service, in the order in which they happen. *)
Inductive Token : Type :=
| Str (s : string)
| Num (d : double)
| Endl.

Inductive Observer : Type := EmailNotifier | AuditLogger.

Inductive ExternalPaymentAPI : Type := mkExternalPaymentAPI.

Inductive Payment : Type :=
| CashPayment
| CardPayment
| ExternalPaymentAdapter (api : ExternalPaymentAPI).

Inductive Event : Type :=
| Out (t : Token)
| CallUpdate (o : Observer) (total : double)
| CallPay (p : Payment) (amount : double)
| CallDoTransaction (api : ExternalPaymentAPI) (amount : double).

Definition Trace : Type := list Event.

(** [cout << t1 << ... << tn]. *)
Definition print (ts : list Token) : Trace := map Out ts.

(** The writes of a trace, which is what the console shows. *)
Definition console (tr : Trace) : list Token :=
  flat_map (fun e => match e with Out t => [t] | _ => [] end) tr.

(** The calls of [update] and [pay] of a trace. *)
Definition invocations (tr : Trace) : Trace :=
  filter (fun e => match e with
                   | CallUpdate _ _ | CallPay _ _ => true
                   | _ => false
                   end) tr.

(** The calls of the external service of a trace. *)
Definition transactions (tr : Trace) : Trace :=
  filter (fun e => match e with
                   | CallDoTransaction _ _ => true
                   | _ => false
                   end) tr.

(** ** Payments and the adapter (lines 83-116) *)

Definition doTransaction (api : ExternalPaymentAPI) (amount : double) : Trace :=
  print [Str "Pago realizado mediante API externa: Bs"; Num amount; Endl].

Definition pay (p : Payment) (amount : double) : Trace :=
  match p with
  | CashPayment =>
      print [Str "Pagando Bs"; Num amount; Str " en efectivo.\n"]
  | CardPayment =>
      print [Str "Pagando Bs"; Num amount; Str " con tarjeta.\n"]
  | ExternalPaymentAdapter api =>
      CallDoTransaction api amount :: doTransaction api amount
  end.

(** ** Observers (lines 120-132) *)

Definition update (o : Observer) (total : double) : Trace :=
  match o with
  | EmailNotifier =>
      print [Str "[Email] Enviando confirmación de pedido por Bs";
             Num total; Str "...\n"]
  | AuditLogger =>
      print [Str "[Log] Pedido registrado por Bs"; Num total; Str ".\n"]
  end.

(** ** The order (lines 136-183)

    A method that is not [const] returns the order it leaves behind together
    with its trace; a [const] method returns its result only. *)
Record Order : Type := mkOrder {
  pizzas : list Pizza;
  observers : list Observer
}.

Definition newOrder : Order := mkOrder [] [].

Definition addPizza (o : Order) (pizza : Pizza) : Order :=
  mkOrder (pizzas o ++ [pizza]) (observers o).

Definition addObserver (o : Order) (obs : Observer) : Order :=
  mkOrder (pizzas o) (observers o ++ [obs]).

Definition notifyObservers (o : Order) (total : double) : Order * Trace :=
  (o, flat_map (fun obs => CallUpdate obs total :: update obs total)
               (observers o)).

Definition listOrder (o : Order) : Trace :=
  print [Str "Pizzas en el pedido:\n"]
  ++ flat_map (fun pizza =>
       print [Str "- "; Str (getName pizza); Str " (Bs";
              Num (getPrice pizza); Str ")\n"]) (pizzas o).

Definition calculateTotal (o : Order) : double :=
  fold_left (fun total pizza => add total (getPrice pizza)) (pizzas o) (Fin 0).

Definition checkout (o : Order) (paymentMethod : Payment) : Order * Trace :=
  let total := calculateTotal o in
  let (o1, t1) := notifyObservers o total in
  (o1, t1 ++ print [Str "Total a pagar: Bs"; Num total; Endl]
          ++ CallPay paymentMethod total :: pay paymentMethod total).

(** The pizzas are values here: the [delete] of each of them has no
    counterpart, [pizzas.clear()] has. *)
Definition clearOrder (o : Order) : Order :=
  mkOrder [] (observers o).

(** ** Standard input

    The input is the sequence of its blank-separated words: a decimal
    integer, or text that [cin >> int] cannot read.  [failbit] stands for
    the stream being no longer good (a failed extraction or the end of the
    input); the program never clears it. *)
Inductive Word : Type :=
| IntWord (z : Z)
| Junk.

Record istream : Type := mkIstream {
  pending : list Word;
  failbit : bool
}.

Definition INT_MAX : Z := 2147483647.
Definition INT_MIN : Z := -2147483648.

(** [cin >> x] for an [int x] whose content is [old] ([None] while [x] is
    not initialised), with the 32-bit [int] of the usual platforms.  A stream
    that is not good leaves [x] alone; text that is no number stores 0 and a
    number out of range stores the nearest bound, both failing the stream. *)
Definition extract (cin : istream) (old : option Z) : istream * option Z :=
  if failbit cin then (cin, old)
  else
    match pending cin with
    | [] => (mkIstream [] true, old)
    | IntWord z :: rest =>
        if INT_MAX <? z then (mkIstream rest true, Some INT_MAX)
        else if z <? INT_MIN then (mkIstream rest true, Some INT_MIN)
        else (mkIstream rest false, Some z)
    | Junk :: rest => (mkIstream (Junk :: rest) true, Some 0)
    end.

(** ** The program (lines 187-273) *)

Record State : Type := mkState {
  order : Order;
  cin : istream;
  cout : Trace
}.

(** How a run ends: normally, by reading an [int] that was never written, or
    with a loop still running when the fuel is spent.  Each case keeps the
    state reached. *)
Inductive Result : Type :=
| Ok (st : State)
| Undefined (st : State)
| OutOfFuel (st : State).

Definition stateOf (r : Result) : State :=
  match r with Ok st | Undefined st | OutOfFuel st => st end.

Definition andThen (r : Result) (k : State -> Result) : Result :=
  match r with
  | Ok st => k st
  | _ => r
  end.

Notation "r >>= k" := (andThen r k) (at level 50, left associativity).

Definition write (st : State) (tr : Trace) : State :=
  mkState (order st) (cin st) (cout st ++ tr).

Definition invalidOption : list Token := [Str "Opción no válida.\n"].

(** The inner [do ... while (ingrediente != 0)] of case 3 (lines 222-232). *)
Fixpoint ingredientLoop (fuel : nat) (builder : PizzaBuilder)
    (ingrediente : option Z) (st : State) : PizzaBuilder * Result :=
  match fuel with
  | O => (builder, OutOfFuel st)
  | S fuel' =>
      let st1 := write st (print [Str "Ingrediente: "]) in
      let (cin1, ingrediente1) := extract (cin st1) ingrediente in
      let st2 := mkState (order st1) cin1 (cout st1) in
      match ingrediente1 with
      | None => (builder, Undefined st2)
      | Some v =>
          let (builder1, st3) :=
            if v =? 1 then (addCheese builder, st2)
            else if v =? 2 then (addPepperoni builder, st2)
            else if v =? 3 then (addPineapple builder, st2)
            else if v =? 0 then (builder, st2)
            else (builder, write st2 (print invalidOption)) in
          if v =? 0 then (builder1, Ok st3)
          else ingredientLoop fuel' builder1 (Some v) st3
      end
  end.

Definition menuText : list Token :=
  [Str "\n=== Menu de Pizzas ===\n";
   Str "1. Pizza Pepperoni (Bs 40)\n";
   Str "2. Pizza Hawaiana (Bs 50)\n";
   Str "3. Pizza Personalizada\n";
   Str "4. Finalizar pedido\n";
   Str "Seleccione una opcion: "].

Definition ingredientText : list Token :=
  [Str "Elija ingredientes para su pizza personalizada:\n";
   Str "1. Queso (+Bs10)\n";
   Str "2. Pepperoni (+Bs12)\n";
   Str "3. Piña (+Bs8)\n";
   Str "0. Terminar\n"].

(** The [switch (option)] of lines 205-242. *)
Definition choose (fuel : nat) (v : Z) (st : State) : Result :=
  if v =? 1 then
    Ok (mkState (addPizza (order st) PepperoniPizza) (cin st) (cout st))
  else if v =? 2 then
    Ok (mkState (addPizza (order st) HawaiianPizza) (cin st) (cout st))
  else if v =? 3 then
    let (builder, r) :=
      ingredientLoop fuel newPizzaBuilder None (write st (print ingredientText)) in
    r >>= fun st1 =>
    Ok (mkState (addPizza (order st1) (build builder)) (cin st1) (cout st1))
  else if v =? 4 then
    Ok (write st (print [Str "Finalizando pedido...\n"]))
  else
    Ok (write st (print invalidOption)).

(** One turn of the body of the outer loop (lines 197-242): the state it
    leaves and the content of [option]. *)
Definition menuBody (fuel : nat) (st : State) (opt : option Z)
    : Result * option Z :=
  let st1 := write st (print menuText) in
  let (cin1, opt1) := extract (cin st1) opt in
  let st2 := mkState (order st1) cin1 (cout st1) in
  match opt1 with
  | None => (Undefined st2, opt1)
  | Some v => (choose fuel v st2, opt1)
  end.

(** The outer [do ... while (option != 4)] (lines 196-244). *)
Fixpoint menuLoop (fuel : nat) (st : State) (opt : option Z) : Result :=
  match fuel with
  | O => OutOfFuel st
  | S fuel' =>
      let (r, opt1) := menuBody fuel' st opt in
      r >>= fun st1 =>
      match opt1 with
      | None => Undefined st1
      | Some v => if v =? 4 then Ok st1 else menuLoop fuel' st1 opt1
      end
  end.

Definition paymentText : list Token :=
  [Str "\nSeleccione metodo de pago:\n";
   Str "1. Efectivo\n";
   Str "2. Tarjeta\n";
   Str "3. API Externa (Adapter)\n"].

Definition invalidMethod : list Token :=
  [Str "Método inválido. Se usará efectivo por defecto.\n"].

(** The choice of the payment object (lines 255-265). *)
Definition selectPayment (paymentOption : Z) (st : State) : Payment * State :=
  if paymentOption =? 1 then (CashPayment, st)
  else if paymentOption =? 2 then (CardPayment, st)
  else if paymentOption =? 3 then
    (ExternalPaymentAdapter mkExternalPaymentAPI, st)
  else (CashPayment, write st (print invalidMethod)).

(** Lines 246-270: the listing, the payment menu, the checkout and the
    clearing of the order. *)
Definition settle (st : State) : Result :=
  let st1 := write st (listOrder (order st)) in
  let st2 := write st1 (print paymentText) in
  let (cin1, paymentOption) := extract (cin st2) None in
  let st3 := mkState (order st2) cin1 (cout st2) in
  match paymentOption with
  | None => Undefined st3
  | Some v =>
      let (payment, st4) := selectPayment v st3 in
      let (o1, tr) := checkout (order st4) payment in
      let st5 := mkState o1 (cin st4) (cout st4 ++ tr) in
      Ok (mkState (clearOrder (order st5)) (cin st5) (cout st5))
  end.

Definition initialOrder : Order :=
  addObserver (addObserver newOrder EmailNotifier) AuditLogger.

Definition main (fuel : nat) (input : list Word) : Result :=
  menuLoop fuel (mkState initialOrder (mkIstream input false) []) None
  >>= settle.

(** ** Vocabulary of the properties *)

(** The integer a finite [double] holds, and the test that a [double] is a
    non-negative integer. *)
Definition value (d : double) : Z :=
  match d with Fin z => z | _ => 0 end.

Definition isNat (d : double) : bool :=
  match d with Fin z => 0 <=? z | _ => false end.

(** The sum of the prices of a sequence of pizzas, in the integers. *)
Definition exactSum (l : list Pizza) : Z :=
  fold_right (fun pizza s => value (getPrice pizza) + s) 0 l.

(** The loop of [calculateTotal], from any value of its accumulator. *)
Definition sumFrom (acc : double) (l : list Pizza) : double :=
  fold_left (fun total pizza => add total (getPrice pizza)) l acc.

(** Every price of the order is non-negative. *)
Definition pricesNonneg (o : Order) : Prop :=
  Forall (fun pizza => nonneg (getPrice pizza) = true) (pizzas o).

(** The operations the program performs on its order. *)
Inductive Op : Type :=
| OpMenuPepperoni
| OpMenuHawaiian
| OpCustom (l : list Ingredient)
| OpObserver (obs : Observer)
| OpCheckout (p : Payment)
| OpClear.

Definition perform (o : Order) (op : Op) : Order :=
  match op with
  | OpMenuPepperoni => addPizza o PepperoniPizza
  | OpMenuHawaiian => addPizza o HawaiianPizza
  | OpCustom l => addPizza o (build (addAll newPizzaBuilder l))
  | OpObserver obs => addObserver o obs
  | OpCheckout p => fst (checkout o p)
  | OpClear => clearOrder o
  end.

Definition run (ops : list Op) : Order := fold_left perform ops newOrder.

(** Calling the external service directly with an amount. *)
Definition directCall (api : ExternalPaymentAPI) (amount : double) : Trace :=
  CallDoTransaction api amount :: doTransaction api amount.


Definition invalidPaymentChoice (w : Word) : bool :=
  match w with
  | IntWord z => (z <? 1) || (3 <? z)
  | Junk => true
  end.

(** The line [listOrder] writes for one pizza. *)
Definition itemLine (pizza : Pizza) : list Token :=
  [Str "- "; Str (getName pizza); Str " (Bs"; Num (getPrice pizza); Str ")\n"].

Definition isStr (s : string) (t : Token) : bool :=
  match t with Str s' => String.eqb s s' | _ => false end.

Fixpoint dropThrough (s : string) (ts : list Token) : list Token :=
  match ts with
  | [] => []
  | t :: ts' => if isStr s t then ts' else dropThrough s ts'
  end.

Fixpoint takeUntil (s : string) (ts : list Token) : list Token :=
  match ts with
  | [] => []
  | t :: ts' => if isStr s t then [] else t :: takeUntil s ts'
  end.

(** What the console shows after "Finalizando pedido..." and before the
    heading of the payment menu. *)
Definition listingPart (ts : list Token) : list Token :=
  takeUntil "\nSeleccione metodo de pago:\n"
            (dropThrough "Finalizando pedido...\n" ts).

(** A token that may show the number [n]: the decimal digits of [n] occur
    in the text written for it.  A [double] that is an integer from 0 to
    999999 is written by [cout] with all its digits; any other [double]
    is counted as showing [n]. *)
Definition decimal (n : Z) : string :=
  DecimalString.NilZero.string_of_int (Z.to_int n).

Definition occursIn (pat s : string) : bool :=
  match String.index 0 pat s with Some _ => true | None => false end.

Definition showsNumber (n : Z) (t : Token) : bool :=
  match t with
  | Num (Fin z) =>
      if (0 <=? z) && (z <? 1000000) then occursIn (decimal n) (decimal z)
      else true
  | Num _ => true
  | Str s => occursIn (decimal n) s
  | Endl => false
  end.

(** ** Vocabulary of the dialogue *)

(** A double that is an integer from 0 to [b]. *)
Definition within (b : Z) (d : double) : bool :=
  match d with
  | Fin z => (0 <=? z) && (z <=? b)
  | _ => false
  end.

(** A stream from which nothing more can be read: it has failed, or no word
    is left. *)
Definition exhausted (c : istream) : bool :=
  failbit c || match pending c with [] => true | _ => false end.

(** The number a user types for an ingredient, and its word. *)
Definition ingredientCode (i : Ingredient) : Z :=
  match i with Cheese => 1 | Pepperoni => 2 | Pineapple => 3 end.

Definition ingredientWord (i : Ingredient) : Word := IntWord (ingredientCode i).

Definition prompts (n : nat) : list Token := repeat (Str "Ingrediente: ") n.

(** What a user does at one prompt of the top-level menu: a menu pizza, a
    custom pizza with its ingredients (closed by 0), or a number that fits
    an [int] and is no option. *)
Inductive Choice : Type :=
| ChoosePepperoni
| ChooseHawaiian
| ChooseCustom (l : list Ingredient)
| ChooseOther (z : Z).

Definition choiceOk (c : Choice) : bool :=
  match c with
  | ChooseOther z =>
      (INT_MIN <=? z) && (z <=? INT_MAX) && ((z <? 1) || (4 <? z))
  | _ => true
  end.

(** The words typed for a choice, the operation it stands for and what the
    program writes during its turn. *)
Definition choiceWords (c : Choice) : list Word :=
  match c with
  | ChoosePepperoni => [IntWord 1]
  | ChooseHawaiian => [IntWord 2]
  | ChooseCustom l => IntWord 3 :: map ingredientWord l ++ [IntWord 0]
  | ChooseOther z => [IntWord z]
  end.

Definition choiceOps (c : Choice) : list Op :=
  match c with
  | ChoosePepperoni => [OpMenuPepperoni]
  | ChooseHawaiian => [OpMenuHawaiian]
  | ChooseCustom l => [OpCustom l]
  | ChooseOther _ => []
  end.

Definition choiceOutput (c : Choice) : list Token :=
  menuText
  ++ match c with
     | ChoosePepperoni | ChooseHawaiian => []
     | ChooseCustom l => ingredientText ++ prompts (S (List.length l))
     | ChooseOther _ => invalidOption
     end.

(** [st'] comes after [st] by writes to the console only, with the same
    observers. *)
Definition quietly (st st' : State) : Prop :=
  observers (order st') = observers (order st) /\
  exists ts, cout st' = cout st ++ print ts.



(** The payment object for a number typed at the payment menu. *)
Definition paymentOf (k : Z) : Payment :=
  if k =? 2 then CardPayment
  else if k =? 3 then ExternalPaymentAdapter mkExternalPaymentAPI
  else CashPayment.

(** * Properties *)

(** ** Rounding *)
Section Rounding.

(** The model of [+] against the hardware addition of the kernel's floats:
    small sums, sums that round down, up and to even, and sums that
    overflow. *)
Example add_agrees_with_binary64 :
  forallb (fun xy => agrees (fst xy) (snd xy))
    [(0, 40); (40, 50); (90, 18); (2 ^ 53, 1); (2 ^ 53, 3); (2 ^ 53 + 2, 1);
     (2 ^ 54, 8); (2 ^ 54, 10); (2 ^ 54, 12); (2 ^ 54, 40); (2 ^ 54, 50);
     (2 ^ 60, 127); (2 ^ 60, 128); (2 ^ 60, 129); (2 ^ 60 + 256, 128);
     (2 ^ 60 + 256, 384); (2 ^ 100, 2 ^ 47); (2 ^ 100, 2 ^ 47 + 1);
     (2 ^ 100 + 2 ^ 48, 2 ^ 47); (- 2 ^ 54, - 50); (2 ^ 54, - 50);
     (2 ^ 1023, 2 ^ 1023); ((2 ^ 53 - 1) * 2 ^ 971, 2 ^ 970);
     ((2 ^ 53 - 1) * 2 ^ 971, 2 ^ 970 - 1)]
  = true.
Proof. vm_compute. reflexivity. Qed.

Lemma pow_prec_lt_emax : 2 ^ 54 < 2 ^ emax.
Proof. unfold emax. apply Z.pow_lt_mono_r; lia. Qed.

Lemma round_nat_small (n : Z) : n < 2 ^ 53 -> round_nat n = n.
Proof.
  intros H. unfold round_nat, prec.
  destruct (Z.ltb_spec n (2 ^ 53)); [reflexivity | lia].
Qed.

Lemma log2_binade (n k : Z) : 0 <= k -> 2 ^ k <= n < 2 ^ (k + 1) -> Z.log2 n = k.
Proof. intros Hk H. apply Z.log2_unique; [exact Hk | exact H]. Qed.

(** An even integer of the binade above [2^53] is a double. *)
Lemma round_nat_even (n : Z) :
  2 ^ 53 <= n < 2 ^ 54 -> Z.even n = true -> round_nat n = n.
Proof.
  intros H Hev. unfold round_nat, prec.
  destruct (Z.ltb_spec n (2 ^ 53)) as [Hlt | _]; [lia |].
  rewrite (log2_binade n 53) by (change (53 + 1) with 54; lia).
  change (53 - (53 - 1)) with 1. change (2 ^ (1 - 1)) with 1.
  change (2 ^ 1) with 2.
  assert (Hr : n mod 2 = 0) by (rewrite Zmod_even, Hev; reflexivity).
  rewrite Hr. cbn [Z.ltb Z.compare].
  pose proof (Z.div_mod n 2 ltac:(lia)) as Hd. lia.
Qed.

Lemma round_nat_nonneg (n : Z) : 0 <= n -> 0 <= round_nat n.
Proof.
  intros Hn. unfold round_nat.
  destruct (n <? 2 ^ prec); [exact Hn |].
  set (e := Z.log2 n - (prec - 1)).
  assert (Hq : 0 <= n / 2 ^ e)
    by (apply Z_div_nonneg_nonneg; [exact Hn | apply Z.pow_nonneg; lia]).
  apply Z.mul_nonneg_nonneg; [| apply Z.pow_nonneg; lia].
  destruct (n mod 2 ^ e <? 2 ^ (e - 1)); [exact Hq |].
  destruct (2 ^ (e - 1) <? n mod 2 ^ e); [lia |].
  destruct (Z.even (n / 2 ^ e)); lia.
Qed.

(** Integers up to [2^53] are doubles: rounding leaves them alone. *)
Lemma round_int_exact (n : Z) : 0 <= n <= 2 ^ 53 -> round_int n = Fin n.
Proof.
  intros [H0 H]. unfold round_int.
  destruct (Z.leb_spec 0 n) as [_ | Hneg]; [| lia].
  assert (Hr : round_nat n = n).
  { destruct (Z.eq_dec n (2 ^ 53)) as [-> | Hne].
    - vm_compute. reflexivity.
    - apply round_nat_small. lia. }
  rewrite Hr. pose proof pow_prec_lt_emax.
  destruct (Z.ltb_spec n (2 ^ emax)); [reflexivity | lia].
Qed.

(** So are the even integers up to [2^54]. *)
Lemma round_int_even (n : Z) :
  0 <= n <= 2 ^ 54 -> Z.even n = true -> round_int n = Fin n.
Proof.
  intros [H0 H] Hev. unfold round_int.
  destruct (Z.leb_spec 0 n) as [_ | Hneg]; [| lia].
  assert (Hr : round_nat n = n).
  { destruct (Z.eq_dec n (2 ^ 54)) as [-> | Hne].
    - vm_compute. reflexivity.
    - destruct (Z.lt_ge_cases n (2 ^ 53)).
      + apply round_nat_small. assumption.
      + apply round_nat_even; [lia | assumption]. }
  rewrite Hr. pose proof pow_prec_lt_emax.
  destruct (Z.ltb_spec n (2 ^ emax)); [reflexivity | lia].
Qed.

Lemma round_int_nonneg (n : Z) : 0 <= n -> nonneg (round_int n) = true.
Proof.
  intros Hn. unfold round_int.
  destruct (Z.leb_spec 0 n) as [_ | Hneg]; [| lia].
  destruct (round_nat n <? 2 ^ emax); [| reflexivity].
  cbn. apply Z.leb_le. apply round_nat_nonneg. exact Hn.
Qed.

(** The sum of two non-negative doubles is non-negative. *)
Lemma nonneg_add (a b : double) :
  nonneg a = true -> nonneg b = true -> nonneg (add a b) = true.
Proof.
  destruct a as [x | | |], b as [y | | |]; cbn [nonneg add];
    try discriminate; try reflexivity.
  intros Hx Hy. apply Z.leb_le in Hx, Hy. apply round_int_nonneg. lia.
Qed.

End Rounding.

(** ** The builder *)
Section Builder.

Lemma count_nonneg (f : Ingredient -> bool) (l : list Ingredient) :
  0 <= count f l.
Proof. unfold count. lia. Qed.

Lemma count_cons (f : Ingredient -> bool) (i : Ingredient) (l : list Ingredient) :
  count f (i :: l) = (if f i then 1 else 0) + count f l.
Proof.
  unfold count. cbn [filter]. destruct (f i); cbn [List.length]; lia.
Qed.

Lemma count_app (f : Ingredient -> bool) (l1 l2 : list Ingredient) :
  count f (l1 ++ l2) = count f l1 + count f l2.
Proof.
  unfold count. rewrite filter_app, length_app. lia.
Qed.

Lemma count_repeat (f : Ingredient -> bool) (i : Ingredient) (n : nat) :
  count f (repeat i n) = if f i then Z.of_nat n else 0.
Proof.
  induction n as [| n IH].
  - destruct (f i); reflexivity.
  - cbn [repeat]. rewrite count_cons, IH. destruct (f i); lia.
Qed.

Lemma exactPrice_nonneg (l : list Ingredient) : 0 <= exactPrice l.
Proof.
  unfold exactPrice.
  pose proof (count_nonneg is_cheese l).
  pose proof (count_nonneg is_pepperoni l).
  pose proof (count_nonneg is_pineapple l). lia.
Qed.

Lemma exactPrice_cons (i : Ingredient) (l : list Ingredient) :
  exactPrice (i :: l)
  = match i with Cheese => 10 | Pepperoni => 12 | Pineapple => 8 end
    + exactPrice l.
Proof.
  unfold exactPrice. rewrite !count_cons.
  destruct i; cbn [is_cheese is_pepperoni is_pineapple]; lia.
Qed.

Lemma addAll_app (b : PizzaBuilder) (l1 l2 : list Ingredient) :
  addAll b (l1 ++ l2) = addAll (addAll b l1) l2.
Proof. unfold addAll. apply fold_left_app. Qed.

Lemma addAll_name (l : list Ingredient) (b : PizzaBuilder) :
  b_name (addAll b l) = b_name b.
Proof.
  revert b. induction l as [| i l IH]; intros b; [reflexivity |].
  cbn [addAll fold_left]. fold (addAll (addIngredient b i) l).
  rewrite IH. destruct i; reflexivity.
Qed.

(** While the exact price stays within [2^53], the accumulated price is the
    exact one. *)
Lemma addAll_price (l : list Ingredient) (b : PizzaBuilder) (z : Z) :
  b_price b = Fin z -> 0 <= z -> z + exactPrice l <= 2 ^ 53 ->
  b_price (addAll b l) = Fin (z + exactPrice l).
Proof.
  revert b z. induction l as [| i l IH]; intros b z Hb Hz Hle.
  - cbn [addAll fold_left]. rewrite Hb. f_equal.
    change (exactPrice []) with 0. lia.
  - rewrite exactPrice_cons in Hle |- *.
    pose proof (exactPrice_nonneg l) as Hl.
    cbn [addAll fold_left]. fold (addAll (addIngredient b i) l).
    set (k := match i with Cheese => 10 | Pepperoni => 12 | Pineapple => 8 end) in *.
    assert (Hk : 0 < k) by (destruct i; subst k; lia).
    rewrite (IH (addIngredient b i) (z + k)).
    + f_equal. lia.
    + destruct i; subst k; cbn [addIngredient addCheese addPepperoni
        addPineapple b_price]; rewrite Hb; cbn [add];
        apply round_int_exact; lia.
    + lia.
    + lia.
Qed.

(** Pineapple alone is added exactly up to [2^54]. *)
Lemma addAll_pineapples (n : nat) (b : PizzaBuilder) (z : Z) :
  b_price b = Fin z -> 0 <= z -> Z.even z = true ->
  z + 8 * Z.of_nat n <= 2 ^ 54 ->
  b_price (addAll b (repeat Pineapple n)) = Fin (z + 8 * Z.of_nat n).
Proof.
  revert b z. induction n as [| n IH]; intros b z Hb Hz Hev Hle.
  - cbn [repeat addAll fold_left]. rewrite Hb. f_equal. lia.
  - cbn [repeat addAll fold_left].
    fold (addAll (addIngredient b Pineapple) (repeat Pineapple n)).
    rewrite (IH (addIngredient b Pineapple) (z + 8)).
    + f_equal. lia.
    + cbn [addIngredient addPineapple b_price]. rewrite Hb. cbn [add].
      apply round_int_even; [lia |].
      rewrite Z.even_add, Hev. reflexivity.
    + lia.
    + rewrite Z.even_add, Hev. reflexivity.
    + lia.
Qed.

(** The price [2^54] is built from [2^51] additions of pineapple. *)
Lemma pineapples_price :
  build (addAll newPizzaBuilder (repeat Pineapple (Z.to_nat (2 ^ 51))))
  = CustomPizza "Pizza Personalizada" (Fin (2 ^ 54)).
Proof.
  remember (Z.to_nat (2 ^ 51)) as n eqn:Hn.
  assert (Hz : Z.of_nat n = 2 ^ 51) by (subst n; apply Z2Nat.id; lia).
  unfold build. rewrite addAll_name.
  rewrite (addAll_pineapples n newPizzaBuilder 0);
    [| reflexivity | lia | reflexivity | rewrite Hz; lia].
  rewrite Hz. reflexivity.
Qed.

End Builder.

(** C3, as the code has it: a fresh builder starts at price 0 and each
    addition increments the price by its amount (cheese 10, pepperoni 12,
    pineapple 8), so after a sequence of additions whose exact price
    [10*c + 12*p + 8*a] is at most [2^53], [build] returns a pizza of exactly
    that price. *)
Theorem build_price_exact (l : list Ingredient) :
  exactPrice l <= 2 ^ 53 ->
  getPrice (build (addAll newPizzaBuilder l))
  = Fin (10 * count is_cheese l + 12 * count is_pepperoni l
         + 8 * count is_pineapple l).
Proof.
  intros Hle. unfold build. cbn [getPrice].
  rewrite (addAll_price l newPizzaBuilder 0); [| reflexivity | lia | lia].
  reflexivity.
Qed.

(** One of each ingredient gives 30. *)
Lemma build_price_exact_witness :
  exactPrice [Cheese; Pepperoni; Pineapple] <= 2 ^ 53 /\
  getPrice (build (addAll newPizzaBuilder [Cheese; Pepperoni; Pineapple]))
  = Fin 30.
Proof.
  split.
  - vm_compute. discriminate.
  - apply (build_price_exact [Cheese; Pepperoni; Pineapple]).
    vm_compute. discriminate.
Defined.

Example build_fresh : getPrice (build newPizzaBuilder) = Fin 0.
Proof. reflexivity. Qed.

Example build_cheese_twice :
  getPrice (build (addCheese (addCheese newPizzaBuilder))) = Fin 20.
Proof. reflexivity. Qed.

Example build_cheese_pineapple :
  build (addPineapple (addCheese newPizzaBuilder))
  = CustomPizza "Pizza Personalizada" (Fin 18).
Proof. reflexivity. Qed.

(** Additions of pineapple up to the price [2^54], then one of cheese. *)
Lemma build_price_rounded_at (n : nat) :
  Z.of_nat n = 2 ^ 51 ->
  count is_cheese (repeat Pineapple n ++ [Cheese]) = 1 /\
  count is_pepperoni (repeat Pineapple n ++ [Cheese]) = 0 /\
  count is_pineapple (repeat Pineapple n ++ [Cheese]) = 2 ^ 51 /\
  getPrice (build (addAll newPizzaBuilder (repeat Pineapple n ++ [Cheese])))
  = Fin (2 ^ 54 + 8) /\
  getPrice (build (addAll newPizzaBuilder (repeat Pineapple n ++ [Cheese])))
  <> Fin (10 * count is_cheese (repeat Pineapple n ++ [Cheese])
          + 12 * count is_pepperoni (repeat Pineapple n ++ [Cheese])
          + 8 * count is_pineapple (repeat Pineapple n ++ [Cheese])).
Proof.
  intros Hz.
  assert (Hprice :
    getPrice (build (addAll newPizzaBuilder (repeat Pineapple n ++ [Cheese])))
    = Fin (2 ^ 54 + 8)).
  { unfold build. cbn [getPrice]. rewrite addAll_app.
    cbn [addAll fold_left addIngredient addCheese b_price].
    fold (addAll newPizzaBuilder (repeat Pineapple n)).
    rewrite (addAll_pineapples n newPizzaBuilder 0);
      [| reflexivity | lia | reflexivity | rewrite Hz; lia].
    rewrite Hz. vm_compute. reflexivity. }
  rewrite Hprice. rewrite 3 count_app, 3 count_repeat.
  cbn [is_cheese is_pepperoni is_pineapple]. rewrite Hz.
  change (count is_cheese [Cheese]) with 1.
  change (count is_pepperoni [Cheese]) with 0.
  change (count is_pineapple [Cheese]) with 0.
  split; [lia | split; [lia | split; [lia | split; [reflexivity |]]]].
  intros H. injection H as H. vm_compute in H. discriminate.
Qed.

(** C3 fails beyond the exact range of [double]: after [2^51] additions of
    pineapple the price is [2^54], and one addition of cheese then gives
    [2^54 + 8], not [10*1 + 12*0 + 8*2^51]. *)
Lemma build_price_rounded :
  count is_cheese (repeat Pineapple (Z.to_nat (2 ^ 51)) ++ [Cheese]) = 1 /\
  count is_pepperoni (repeat Pineapple (Z.to_nat (2 ^ 51)) ++ [Cheese]) = 0 /\
  count is_pineapple (repeat Pineapple (Z.to_nat (2 ^ 51)) ++ [Cheese])
  = 2 ^ 51 /\
  getPrice (build (addAll newPizzaBuilder
                     (repeat Pineapple (Z.to_nat (2 ^ 51)) ++ [Cheese])))
  = Fin (2 ^ 54 + 8) /\
  getPrice (build (addAll newPizzaBuilder
                     (repeat Pineapple (Z.to_nat (2 ^ 51)) ++ [Cheese])))
  <> Fin (10 * count is_cheese
                 (repeat Pineapple (Z.to_nat (2 ^ 51)) ++ [Cheese])
          + 12 * count is_pepperoni
                   (repeat Pineapple (Z.to_nat (2 ^ 51)) ++ [Cheese])
          + 8 * count is_pineapple
                  (repeat Pineapple (Z.to_nat (2 ^ 51)) ++ [Cheese])).
Proof.
  exact (build_price_rounded_at (Z.to_nat (2 ^ 51))
           (Z2Nat.id (2 ^ 51) (Z.pow_nonneg 2 51 (Z.lt_le_incl 0 2 Z.lt_0_2)))).
Qed.

(** ** Traces *)
Section Traces.

Lemma invocations_app (t1 t2 : Trace) :
  invocations (t1 ++ t2) = invocations t1 ++ invocations t2.
Proof. apply filter_app. Qed.

Lemma invocations_print (ts : list Token) : invocations (print ts) = [].
Proof. induction ts as [| t ts IH]; [reflexivity | exact IH]. Qed.

Lemma invocations_update (obs : Observer) (total : double) :
  invocations (update obs total) = [].
Proof. destruct obs; apply invocations_print. Qed.

Lemma invocations_pay (p : Payment) (amount : double) :
  invocations (pay p amount) = [].
Proof. destruct p; reflexivity. Qed.

Lemma invocations_notify (l : list Observer) (total : double) :
  invocations (flat_map (fun obs => CallUpdate obs total :: update obs total) l)
  = map (fun obs => CallUpdate obs total) l.
Proof.
  induction l as [| obs l IH]; [reflexivity |].
  cbn [flat_map map]. rewrite invocations_app, IH.
  change (invocations (CallUpdate obs total :: update obs total))
    with (CallUpdate obs total :: invocations (update obs total)).
  rewrite invocations_update. reflexivity.
Qed.

(** The calls of a checkout: the observers in their order, then the
    payment, all with the total of the order. *)
Lemma checkout_calls (o : Order) (p : Payment) :
  invocations (snd (checkout o p))
  = map (fun obs => CallUpdate obs (calculateTotal o)) (observers o)
    ++ [CallPay p (calculateTotal o)].
Proof.
  unfold checkout, notifyObservers. cbn [snd].
  rewrite !invocations_app, invocations_notify, invocations_print.
  cbn [app]. f_equal.
  change (CallPay p (calculateTotal o) :: pay p (calculateTotal o))
    with ([CallPay p (calculateTotal o)] ++ pay p (calculateTotal o)).
  rewrite invocations_app, invocations_pay. reflexivity.
Qed.

Lemma observers_registered (l : list Observer) (o : Order) :
  observers (fold_left addObserver l o) = observers o ++ l
  /\ pizzas (fold_left addObserver l o) = pizzas o.
Proof.
  revert o. induction l as [| obs l IH]; intros o; cbn [fold_left].
  - rewrite app_nil_r. split; reflexivity.
  - destruct (IH (addObserver o obs)) as [H1 H2]. rewrite H1, H2.
    cbn [addObserver observers pizzas]. rewrite <- app_assoc. split; reflexivity.
Qed.

End Traces.

(** C1: with observers registered in the order [l] and any payment method
    [p], the calls [checkout] makes are one [update] per registered observer,
    in the order of registration, each with the total of the order, followed
    by one [pay] of [p] with that same total. *)
Theorem checkout_notifies_then_pays (items : list Pizza) (l : list Observer)
    (p : Payment) :
  let o := fold_left addObserver l (mkOrder items []) in
  let total := calculateTotal o in
  observers o = l /\
  invocations (snd (checkout o p))
  = map (fun obs => CallUpdate obs total) l ++ [CallPay p total] /\
  snd (checkout o p)
  = flat_map (fun obs => CallUpdate obs total :: update obs total) l
    ++ print [Str "Total a pagar: Bs"; Num total; Endl]
    ++ CallPay p total :: pay p total.
Proof.
  intros o total.
  assert (Hobs : observers o = l)
    by (subst o; rewrite (proj1 (observers_registered l _)); reflexivity).
  split; [exact Hobs |]. split.
  - subst total. rewrite checkout_calls, Hobs. reflexivity.
  - unfold checkout, notifyObservers. cbn [snd]. rewrite Hobs. reflexivity.
Qed.

(** C9: [pay] of the adapter is the call of [doTransaction] on the wrapped
    service with the same amount and nothing else: one call of the service,
    and on the console what the service writes for that amount. *)
Theorem adapter_forwards (api : ExternalPaymentAPI) (amount : double) :
  pay (ExternalPaymentAdapter api) amount = directCall api amount /\
  transactions (pay (ExternalPaymentAdapter api) amount)
  = [CallDoTransaction api amount] /\
  console (pay (ExternalPaymentAdapter api) amount)
  = console (doTransaction api amount) /\
  console (doTransaction api amount)
  = [Str "Pago realizado mediante API externa: Bs"; Num amount; Endl].
Proof. repeat split. Qed.

(** ** Totals *)
Section Totals.

Lemma pizzas_added (l : list Pizza) (o : Order) :
  pizzas (fold_left addPizza l o) = pizzas o ++ l
  /\ observers (fold_left addPizza l o) = observers o.
Proof.
  revert o. induction l as [| pizza l IH]; intros o; cbn [fold_left].
  - rewrite app_nil_r. split; reflexivity.
  - destruct (IH (addPizza o pizza)) as [H1 H2]. rewrite H1, H2.
    cbn [addPizza observers pizzas]. rewrite <- app_assoc. split; reflexivity.
Qed.

Lemma exactSum_nonneg (l : list Pizza) :
  forallb (fun pizza => isNat (getPrice pizza)) l = true -> 0 <= exactSum l.
Proof.
  induction l as [| pizza l IH]; cbn [forallb exactSum fold_right]; [lia |].
  intros H. apply andb_prop in H as [Hp Hl]. specialize (IH Hl).
  fold (exactSum l). destruct (getPrice pizza); try discriminate.
  cbn [isNat value] in *. apply Z.leb_le in Hp. lia.
Qed.

Lemma sumFrom_exact (l : list Pizza) (z : Z) :
  0 <= z ->
  forallb (fun pizza => isNat (getPrice pizza)) l = true ->
  z + exactSum l <= 2 ^ 53 ->
  sumFrom (Fin z) l = Fin (z + exactSum l).
Proof.
  revert z. induction l as [| pizza l IH]; intros z Hz Hall Hle.
  - cbn. f_equal. lia.
  - cbn [forallb] in Hall. apply andb_prop in Hall as [Hp Hl].
    pose proof (exactSum_nonneg l Hl) as Hnn.
    cbn [exactSum fold_right] in Hle |- *. fold (exactSum l) in Hle |- *.
    cbn [sumFrom fold_left]. fold (sumFrom (add (Fin z) (getPrice pizza)) l).
    destruct (getPrice pizza) as [x | | |]; try discriminate.
    cbn [isNat value] in *. apply Z.leb_le in Hp.
    cbn [add]. rewrite round_int_exact by lia.
    rewrite IH by (assumption || lia). f_equal. lia.
Qed.

Lemma sumFrom_nonneg (l : list Pizza) (acc : double) :
  nonneg acc = true ->
  Forall (fun pizza => nonneg (getPrice pizza) = true) l ->
  nonneg (sumFrom acc l) = true.
Proof.
  intros Hacc Hall. revert acc Hacc.
  induction Hall as [| pizza l Hp _ IH]; intros acc Hacc; [exact Hacc |].
  cbn [sumFrom fold_left]. apply IH. apply nonneg_add; assumption.
Qed.

Lemma addAll_nonneg (l : list Ingredient) (b : PizzaBuilder) :
  nonneg (b_price b) = true -> nonneg (b_price (addAll b l)) = true.
Proof.
  revert b. induction l as [| i l IH]; intros b Hb; [exact Hb |].
  cbn [addAll fold_left]. apply IH.
  destruct i; cbn [addIngredient addCheese addPepperoni addPineapple b_price];
    (apply nonneg_add; [exact Hb | reflexivity]).
Qed.

Lemma perform_pricesNonneg (o : Order) (op : Op) :
  pricesNonneg o -> pricesNonneg (perform o op).
Proof.
  unfold pricesNonneg. intros H.
  destruct op; cbn [perform addPizza addObserver clearOrder pizzas checkout
                    notifyObservers fst]; try exact H;
    try (apply Forall_app; split; [exact H |];
         constructor; [| constructor]).
  - reflexivity.
  - reflexivity.
  - unfold build. cbn [getPrice]. apply addAll_nonneg. reflexivity.
  - constructor.
Qed.

Lemma run_pricesNonneg (ops : list Op) (o : Order) :
  pricesNonneg o -> pricesNonneg (fold_left perform ops o).
Proof.
  revert o. induction ops as [| op ops IH]; intros o H; [exact H |].
  cbn [fold_left]. apply IH, perform_pricesNonneg, H.
Qed.

End Totals.

(** C2, as the code has it: for pizzas added to an order whose prices are
    non-negative integers of exact sum at most [2^53], [calculateTotal] is
    the exact sum of the prices of the items of the order, with Pepperoni at
    40 and Hawaiian at 50; it is computed from the items alone, so that one
    more item adds its price to the previous total. *)
Theorem total_exact (o0 : Order) (l : list Pizza) :
  let o := fold_left addPizza l o0 in
  forallb (fun pizza => isNat (getPrice pizza)) (pizzas o0 ++ l) = true ->
  exactSum (pizzas o0 ++ l) <= 2 ^ 53 ->
  pizzas o = pizzas o0 ++ l /\
  calculateTotal o = Fin (exactSum (pizzas o)) /\
  getPrice PepperoniPizza = Fin 40 /\
  getPrice HawaiianPizza = Fin 50 /\
  (forall obs, calculateTotal (mkOrder (pizzas o) obs) = calculateTotal o) /\
  (forall pizza,
     calculateTotal (addPizza o pizza) = add (calculateTotal o) (getPrice pizza)).
Proof.
  intros o Hall Hle.
  assert (Hp : pizzas o = pizzas o0 ++ l)
    by (subst o; apply (proj1 (pizzas_added l o0))).
  split; [exact Hp |]. split; [| repeat split].
  - rewrite Hp. change (calculateTotal o) with (sumFrom (Fin 0) (pizzas o)).
    rewrite Hp. rewrite sumFrom_exact; [f_equal; lia | lia | exact Hall | lia].
  - intros pizza. unfold calculateTotal. cbn [addPizza pizzas].
    rewrite fold_left_app. reflexivity.
Qed.

(** Pepperoni, Hawaiian and a custom pizza of cheese and pineapple: 108. *)
Lemma total_exact_witness :
  forallb (fun pizza => isNat (getPrice pizza))
    (pizzas newOrder
     ++ [PepperoniPizza; HawaiianPizza;
         build (addPineapple (addCheese newPizzaBuilder))]) = true /\
  exactSum (pizzas newOrder
            ++ [PepperoniPizza; HawaiianPizza;
                build (addPineapple (addCheese newPizzaBuilder))]) <= 2 ^ 53 /\
  calculateTotal
    (fold_left addPizza
       [PepperoniPizza; HawaiianPizza;
        build (addPineapple (addCheese newPizzaBuilder))] newOrder)
  = Fin 108.
Proof.
  split; [reflexivity |]. split; [vm_compute; discriminate |].
  apply (total_exact newOrder
           [PepperoniPizza; HawaiianPizza;
            build (addPineapple (addCheese newPizzaBuilder))]).
  - reflexivity.
  - vm_compute. discriminate.
Defined.

(** An order of a custom pizza of price [2^54] and a Hawaiian pizza. *)
Lemma total_rounded_at (custom : Pizza) :
  custom = CustomPizza "Pizza Personalizada" (Fin (2 ^ 54)) ->
  exactSum (pizzas (addPizza (addPizza newOrder custom) HawaiianPizza))
  = 2 ^ 54 + 50 /\
  calculateTotal (addPizza (addPizza newOrder custom) HawaiianPizza)
  = Fin (2 ^ 54 + 48) /\
  calculateTotal (addPizza (addPizza newOrder custom) HawaiianPizza)
  <> Fin (exactSum (pizzas (addPizza (addPizza newOrder custom) HawaiianPizza))).
Proof.
  intros ->. split; [reflexivity |]. split; [vm_compute; reflexivity |].
  vm_compute. discriminate.
Qed.

(** C2 fails beyond the exact range of [double]: with the custom pizza of
    [2^51] additions of pineapple (price [2^54]) and a Hawaiian pizza, the
    total is [2^54 + 48] while the prices sum to [2^54 + 50]. *)
Lemma total_rounded :
  exactSum
    (pizzas (addPizza (addPizza newOrder
       (build (addAll newPizzaBuilder (repeat Pineapple (Z.to_nat (2 ^ 51))))))
       HawaiianPizza))
  = 2 ^ 54 + 50 /\
  calculateTotal
    (addPizza (addPizza newOrder
       (build (addAll newPizzaBuilder (repeat Pineapple (Z.to_nat (2 ^ 51))))))
       HawaiianPizza)
  = Fin (2 ^ 54 + 48) /\
  calculateTotal
    (addPizza (addPizza newOrder
       (build (addAll newPizzaBuilder (repeat Pineapple (Z.to_nat (2 ^ 51))))))
       HawaiianPizza)
  <> Fin (exactSum
       (pizzas (addPizza (addPizza newOrder
          (build (addAll newPizzaBuilder (repeat Pineapple (Z.to_nat (2 ^ 51))))))
          HawaiianPizza))).
Proof.
  exact (total_rounded_at
           (build (addAll newPizzaBuilder (repeat Pineapple (Z.to_nat (2 ^ 51)))))
           pineapples_price).
Qed.

(** C4: [clearOrder] leaves no item, so that the total is 0 afterwards, and
    leaves the observers as they were. *)
Theorem clearOrder_keeps_observers (o : Order) :
  pizzas (clearOrder o) = [] /\
  calculateTotal (clearOrder o) = Fin 0 /\
  observers (clearOrder o) = observers o.
Proof. repeat split. Qed.

(** C8: in every order reached by the operations of the program (menu
    pizzas, built custom pizzas, registrations, checkouts, clearing) the
    total is non-negative. *)
Theorem total_nonneg (ops : list Op) :
  nonneg (calculateTotal (run ops)) = true.
Proof.
  change (calculateTotal (run ops)) with (sumFrom (Fin 0) (pizzas (run ops))).
  apply sumFrom_nonneg; [reflexivity |].
  apply (run_pricesNonneg ops newOrder). constructor.
Qed.

(** C10: [checkout] returns the order it was given, items and observers;
    a second checkout, with any payment method, therefore makes the same
    calls with the same total, and with the same method leaves the same
    trace. *)
Theorem checkout_preserves_order (o : Order) (p : Payment) :
  fst (checkout o p) = o /\
  pizzas (fst (checkout o p)) = pizzas o /\
  observers (fst (checkout o p)) = observers o /\
  (forall p2,
     invocations (snd (checkout (fst (checkout o p)) p2))
     = map (fun obs => CallUpdate obs (calculateTotal o)) (observers o)
       ++ [CallPay p2 (calculateTotal o)]) /\
  snd (checkout (fst (checkout o p)) p) = snd (checkout o p).
Proof.
  assert (H : fst (checkout o p) = o) by reflexivity.
  rewrite H. repeat split. intros p2. apply checkout_calls.
Qed.

(** ** The dialogue of [main] *)
Section Dialogue.


Lemma extract_invalidPaymentChoice (c : istream) (old : option Z) (w : Word)
    (rest : list Word) :
  failbit c = false -> pending c = w :: rest -> invalidPaymentChoice w = true ->
  exists c' v, extract c old = (c', Some v) /\ (v < 1 \/ 3 < v).
Proof.
  intros Hf Hp Hw. unfold extract. rewrite Hf, Hp.
  destruct w as [z |].
  - destruct (Z.ltb_spec INT_MAX z).
    + eexists _, _. split; [reflexivity |]. unfold INT_MAX. lia.
    + destruct (Z.ltb_spec z INT_MIN).
      * eexists _, _. split; [reflexivity |]. unfold INT_MIN. lia.
      * eexists _, _. split; [reflexivity |].
        cbn [invalidPaymentChoice] in Hw. apply orb_prop in Hw as [Hw | Hw];
          apply Z.ltb_lt in Hw; lia.
  - eexists _, _. split; [reflexivity |]. lia.
Qed.

Lemma extract_valid (c : istream) (old : option Z) (z : Z) (rest : list Word) :
  failbit c = false -> pending c = IntWord z :: rest ->
  INT_MIN <= z <= INT_MAX ->
  extract c old = (mkIstream rest false, Some z).
Proof.
  intros Hf Hp [Hlo Hhi]. unfold extract. rewrite Hf, Hp.
  destruct (Z.ltb_spec INT_MAX z); [lia |].
  destruct (Z.ltb_spec z INT_MIN); [lia |]. reflexivity.
Qed.

Lemma choose_invalid (fuel : nat) (v : Z) (st : State) :
  v < 1 \/ 4 < v -> choose fuel v st = Ok (write st (print invalidOption)).
Proof.
  intros Hv. unfold choose.
  destruct (Z.eqb_spec v 1); [lia |]. destruct (Z.eqb_spec v 2); [lia |].
  destruct (Z.eqb_spec v 3); [lia |]. destruct (Z.eqb_spec v 4); [lia |].
  reflexivity.
Qed.

Lemma selectPayment_invalid (v : Z) (st : State) :
  v < 1 \/ 3 < v ->
  selectPayment v st = (CashPayment, write st (print invalidMethod)).
Proof.
  intros Hv. unfold selectPayment.
  destruct (Z.eqb_spec v 1); [lia |]. destruct (Z.eqb_spec v 2); [lia |].
  destruct (Z.eqb_spec v 3); [lia |]. reflexivity.
Qed.

(** The inner loop only appends to the console and leaves the order alone. *)
Lemma ingredientLoop_extends (fuel : nat) (b : PizzaBuilder) (ing : option Z)
    (st : State) :
  order (stateOf (snd (ingredientLoop fuel b ing st))) = order st /\
  exists tr, cout (stateOf (snd (ingredientLoop fuel b ing st))) = cout st ++ tr.
Proof.
  revert b ing st. induction fuel as [| fuel IH]; intros b ing st.
  - cbn. split; [reflexivity |]. exists []. symmetry. apply app_nil_r.
  - cbn [ingredientLoop].
    destruct (extract (cin (write st (print [Str "Ingrediente: "]))) ing)
      as [c1 [v |]].
    + set (st2 := mkState _ c1 _).
      assert (H2 : order st2 = order st /\
                   cout st2 = cout st ++ print [Str "Ingrediente: "])
        by (split; reflexivity).
      destruct H2 as [Ho2 Hc2].
      assert (H3 : forall b1 st3,
                 order st3 = order st ->
                 (exists tr, cout st3 = cout st ++ tr) ->
                 order (stateOf (snd (if v =? 0 then (b1, Ok st3)
                         else ingredientLoop fuel b1 (Some v) st3))) = order st /\
                 exists tr, cout (stateOf (snd (if v =? 0 then (b1, Ok st3)
                         else ingredientLoop fuel b1 (Some v) st3)))
                            = cout st ++ tr).
      { intros b1 st3 Ho [tr Hc]. destruct (v =? 0).
        - cbn. split; [exact Ho | exists tr; exact Hc].
        - destruct (IH b1 (Some v) st3) as [Ho' [tr' Hc']].
          split; [congruence |]. exists (tr ++ tr').
          rewrite Hc', Hc. symmetry. apply app_assoc. }
      destruct (v =? 1); [apply H3; [exact Ho2 | eexists; exact Hc2] |].
      destruct (v =? 2); [apply H3; [exact Ho2 | eexists; exact Hc2] |].
      destruct (v =? 3); [apply H3; [exact Ho2 | eexists; exact Hc2] |].
      destruct (Z.eqb_spec v 0) as [H0 | H0].
      * cbn. split; [reflexivity | eexists; reflexivity].
      * specialize (H3 b (write st2 (print invalidOption))).
        destruct (Z.eqb_spec v 0) as [H0' | _]; [contradiction |].
        apply H3; [exact Ho2 |].
        eexists. cbn [write cout]. rewrite Hc2, <- app_assoc. reflexivity.
    + cbn. split; [reflexivity | eexists; reflexivity].
Qed.



(** With the stream failed and [option] holding a value that is no option
    of the menu, the outer loop is never left. *)
Lemma failed_stream_never_leaves (fuel : nat) (st : State) (v : Z) :
  failbit (cin st) = true -> v < 1 \/ 4 < v ->
  exists st', menuLoop fuel st (Some v) = OutOfFuel st' /\ order st' = order st.
Proof.
  revert st. induction fuel as [| fuel IH]; intros st Hf Hv.
  - exists st. split; reflexivity.
  - cbn [menuLoop]. unfold menuBody, extract. cbn [write cin]. rewrite Hf.
    rewrite choose_invalid by exact Hv. cbn [andThen].
    destruct (Z.eqb_spec v 4); [lia |].
    match goal with
    | |- exists _, menuLoop fuel ?s _ = _ /\ _ =>
        destruct (IH s Hf Hv) as (st' & H1 & H2)
    end.
    exists st'. split; [exact H1 | rewrite H2; reflexivity].
Qed.

(** X1: text that is no integer at the top-level menu: the stream fails, 0 is
    stored, and from then on no turn reads anything, so the loop is still
    running however many turns are allowed. *)
Lemma junk_never_leaves (fuel : nat) (st : State) (opt : option Z)
    (rest : list Word) :
  failbit (cin st) = false -> pending (cin st) = Junk :: rest ->
  exists st', menuLoop fuel st opt = OutOfFuel st' /\ order st' = order st.
Proof.
  intros Hf Hp. destruct fuel as [| fuel].
  - exists st. split; reflexivity.
  - cbn [menuLoop]. unfold menuBody, extract. cbn [write cin]. rewrite Hf, Hp.
    rewrite choose_invalid by lia. cbn [andThen Z.eqb].
    match goal with
    | |- exists _, menuLoop fuel ?s _ = _ /\ _ =>
        destruct (failed_stream_never_leaves fuel s 0 eq_refl
                    ltac:(lia)) as (st' & H1 & H2)
    end.
    exists st'. split; [exact H1 | rewrite H2; reflexivity].
Qed.

Lemma junk_never_leaves_witness :
  exists st',
    menuLoop 50 (mkState initialOrder
                   (mkIstream [Junk; IntWord 4; IntWord 1] false) []) None
    = OutOfFuel st' /\
    order st' = initialOrder.
Proof.
  exact (junk_never_leaves 50
           (mkState initialOrder
              (mkIstream [Junk; IntWord 4; IntWord 1] false) [])
           None [IntWord 4; IntWord 1] eq_refl eq_refl).
Defined.

End Dialogue.

Section Settling.

Lemma listOrder_lines (o : Order) :
  listOrder o
  = print (Str "Pizzas en el pedido:\n" :: flat_map itemLine (pizzas o)).
Proof.
  unfold listOrder. cbn [print map app]. f_equal.
  induction (pizzas o) as [| pizza l IH]; [reflexivity |].
  cbn [flat_map]. rewrite IH. unfold print. rewrite map_app. reflexivity.
Qed.

Lemma selectPayment_extends (v : Z) (st : State) :
  order (snd (selectPayment v st)) = order st /\
  exists tr, cout (snd (selectPayment v st)) = cout st ++ tr.
Proof.
  unfold selectPayment.
  destruct (v =? 1); [split; [reflexivity | exists []; symmetry; apply app_nil_r] |].
  destruct (v =? 2); [split; [reflexivity | exists []; symmetry; apply app_nil_r] |].
  destruct (v =? 3); [split; [reflexivity | exists []; symmetry; apply app_nil_r] |].
  split; [reflexivity | eexists; reflexivity].
Qed.

(** Whatever is read next, [settle] first writes the listing of the order
    and then the payment menu. *)
Lemma settle_lists_first (st : State) :
  exists tr,
    cout (stateOf (settle st))
    = cout st ++ listOrder (order st) ++ print paymentText ++ tr.
Proof.
  unfold settle. cbn [write cin order cout].
  destruct (extract (cin st) None) as [c1 [v |]].
  - set (st3 := mkState (order st) c1 _).
    destruct (selectPayment_extends v st3) as [Ho [tr Htr]].
    destruct (selectPayment v st3) as [payment st4]. cbn [snd] in Ho, Htr.
    unfold checkout, notifyObservers. cbn [stateOf cout order cin].
    rewrite Htr. subst st3. cbn [cout]. rewrite <- !app_assoc.
    eexists. reflexivity.
  - exists []. cbn [stateOf cout]. rewrite <- !app_assoc, app_nil_r. reflexivity.
Qed.

End Settling.

(** C6, as the code has it: when option 4 is read, the loop ends after
    writing "Finalizando pedido...", and the program then writes the heading
    of the listing and one line per pizza of the order, with its name and
    its price, in the order of the items, and immediately after that the
    payment menu.  No count of the items is written. *)
Theorem finish_lists_items (fuel : nat) (st : State) (opt : option Z)
    (rest : list Word) :
  failbit (cin st) = false -> pending (cin st) = IntWord 4 :: rest ->
  exists st1,
    menuLoop (S fuel) st opt = Ok st1 /\
    order st1 = order st /\
    cout st1
    = cout st ++ print menuText ++ print [Str "Finalizando pedido...\n"] /\
    exists tr,
      cout (stateOf (settle st1))
      = cout st1
        ++ print (Str "Pizzas en el pedido:\n"
                  :: flat_map itemLine (pizzas (order st)))
        ++ print paymentText ++ tr.
Proof.
  intros Hf Hp.
  assert (He : extract (cin st) opt = (mkIstream rest false, Some 4))
    by (apply extract_valid; [exact Hf | exact Hp | unfold INT_MIN, INT_MAX; lia]).
  eexists. split.
  - cbn [menuLoop]. unfold menuBody. cbn [write cin order cout]. rewrite He.
    cbn [choose Z.eqb Pos.eqb andThen]. reflexivity.
  - split; [reflexivity |]. split.
    + unfold write. cbn [cout]. rewrite <- app_assoc. reflexivity.
    + match goal with
      | |- exists _, cout (stateOf (settle ?s)) = _ =>
          destruct (settle_lists_first s) as [tr Htr]; exists tr; rewrite Htr
      end.
      rewrite listOrder_lines. reflexivity.
Qed.

(** A Pepperoni pizza in the order, then option 4. *)
Lemma finish_lists_items_witness :
  exists st1,
    menuLoop 1 (mkState (addPizza initialOrder PepperoniPizza)
                  (mkIstream [IntWord 4; IntWord 1] false) []) None = Ok st1 /\
    order st1 = addPizza initialOrder PepperoniPizza /\
    cout st1 = print menuText ++ print [Str "Finalizando pedido...\n"] /\
    exists tr,
      cout (stateOf (settle st1))
      = cout st1
        ++ print [Str "Pizzas en el pedido:\n"; Str "- "; Str "Pizza Pepperoni";
                  Str " (Bs"; Num (Fin 40); Str ")\n"]
        ++ print paymentText ++ tr.
Proof.
  exact (finish_lists_items 0
           (mkState (addPizza initialOrder PepperoniPizza)
              (mkIstream [IntWord 4; IntWord 1] false) [])
           None [IntWord 1] eq_refl eq_refl).
Defined.

Example showsNumber_samples :
  showsNumber 2 (Str "Total: 2 pizzas") = true /\
  showsNumber 12 (Num (Fin 120)) = true /\
  showsNumber 2 (Num (Fin 40)) = false /\
  showsNumber 2 (Str "Pizzas en el pedido:\n") = false.
Proof. repeat split. Qed.

(** C6 fails on the count: with the input 1, 2, 4, 1 the order holds two
    pizzas when the loop ends, and between "Finalizando pedido..." and the
    payment menu the console shows the heading and the two lines only;
    nothing there shows the number 2. *)
Lemma finish_shows_no_count :
  menuLoop 3 (mkState initialOrder
                (mkIstream [IntWord 1; IntWord 2; IntWord 4; IntWord 1] false) [])
    None
  = Ok (mkState (mkOrder [PepperoniPizza; HawaiianPizza]
                   [EmailNotifier; AuditLogger])
          (mkIstream [IntWord 1] false)
          (print (menuText ++ menuText ++ menuText
                  ++ [Str "Finalizando pedido...\n"]))) /\
  listingPart
    (console (cout (stateOf
       (main 3 [IntWord 1; IntWord 2; IntWord 4; IntWord 1]))))
  = [Str "Pizzas en el pedido:\n";
     Str "- "; Str "Pizza Pepperoni"; Str " (Bs"; Num (Fin 40); Str ")\n";
     Str "- "; Str "Pizza Hawaiana"; Str " (Bs"; Num (Fin 50); Str ")\n"] /\
  existsb (showsNumber 2)
    (listingPart
       (console (cout (stateOf
          (main 3 [IntWord 1; IntWord 2; IntWord 4; IntWord 1])))))
  = false.
Proof. split; [| split]; vm_compute; reflexivity. Qed.

Section PaymentPrompt.

(** A value 4 comes out of an extraction only when it is read from a good
    stream, unless [option] held 4 already. *)
Lemma extract_four (c c1 : istream) (old : option Z) :
  old <> Some 4 -> extract c old = (c1, Some 4) -> failbit c1 = false.
Proof.
  intros Hold. unfold extract.
  destruct (failbit c); [intros [= _ H]; congruence |].
  destruct (pending c) as [| [z |] rest]; [intros [= _ H]; congruence | |].
  - destruct (INT_MAX <? z); [intros [= _ H]; discriminate |].
    destruct (z <? INT_MIN); [intros [= _ H]; discriminate |].
    intros [= <- _]. reflexivity.
  - intros [= _ H].
Qed.

Lemma choose_four (fuel : nat) (st : State) :
  choose fuel 4 st = Ok (write st (print [Str "Finalizando pedido...\n"])).
Proof. reflexivity. Qed.

(** The outer loop is left with the stream still good: the payment menu
    always has the next word of the input to read, if there is one. *)
Lemma menuLoop_leaves_good (fuel : nat) (st st' : State) (opt : option Z) :
  opt <> Some 4 -> menuLoop fuel st opt = Ok st' -> failbit (cin st') = false.
Proof.
  revert st opt. induction fuel as [| fuel IH]; intros st opt Hopt;
    [discriminate |].
  cbn [menuLoop]. unfold menuBody.
  destruct (extract (cin (write st (print menuText))) opt) as [c1 [v |]] eqn:He;
    [| discriminate].
  destruct (Z.eqb_spec v 4) as [-> | Hv].
  - rewrite choose_four. cbn [andThen]. intros [= <-].
    cbn [write cin]. exact (extract_four _ _ _ Hopt He).
  - destruct (choose fuel v _) as [st1 | st1 | st1]; cbn [andThen];
      try discriminate.
    apply IH. congruence.
Qed.

(** At the payment menu, a word that is none of 1, 2 and 3. *)
Lemma settle_invalid_payment (st : State) (w : Word) (rest : list Word) :
  failbit (cin st) = false -> pending (cin st) = w :: rest ->
  invalidPaymentChoice w = true ->
  exists c',
    settle st
    = Ok (mkState (clearOrder (order st)) c'
            (cout st ++ listOrder (order st) ++ print paymentText
             ++ print invalidMethod ++ snd (checkout (order st) CashPayment))).
Proof.
  intros Hf Hp Hw.
  destruct (extract_invalidPaymentChoice (cin st) None w rest Hf Hp Hw)
    as (c' & v & He & Hv).
  exists c'. unfold settle. cbn [write cin order cout]. rewrite He.
  rewrite selectPayment_invalid by exact Hv.
  unfold write, checkout, notifyObservers. cbn [cout order cin snd].
  rewrite <- !app_assoc. reflexivity.
Qed.

End PaymentPrompt.

(** C7: when the loop of the menu has ended and the word then read at the
    payment menu is none of 1, 2 and 3, the run ends normally; after the
    listing and the payment menu the program writes the warning and then
    checks out with [CashPayment]: the observers are notified and
    [CashPayment] is paid the total of the order. *)
Theorem invalid_payment_defaults_to_cash (fuel : nat) (input : list Word)
    (st : State) (w : Word) (rest : list Word) :
  menuLoop fuel (mkState initialOrder (mkIstream input false) []) None = Ok st ->
  pending (cin st) = w :: rest ->
  invalidPaymentChoice w = true ->
  exists st',
    main fuel input = Ok st' /\
    cout st'
    = cout st ++ listOrder (order st) ++ print paymentText
      ++ print invalidMethod ++ snd (checkout (order st) CashPayment) /\
    invocations (snd (checkout (order st) CashPayment))
    = map (fun obs => CallUpdate obs (calculateTotal (order st)))
          (observers (order st))
      ++ [CallPay CashPayment (calculateTotal (order st))] /\
    console (pay CashPayment (calculateTotal (order st)))
    = [Str "Pagando Bs"; Num (calculateTotal (order st));
       Str " en efectivo.\n"].
Proof.
  intros Hloop Hp Hw.
  assert (Hf : failbit (cin st) = false)
    by (eapply menuLoop_leaves_good; [| exact Hloop]; discriminate).
  destruct (settle_invalid_payment st w rest Hf Hp Hw) as [c' Hs].
  eexists. split; [| split; [| split]].
  - unfold main. rewrite Hloop. cbn [andThen]. exact Hs.
  - reflexivity.
  - apply checkout_calls.
  - reflexivity.
Qed.

(** The input 1, 4, 7: one Pepperoni pizza, then the payment word 7. *)
Lemma invalid_payment_defaults_to_cash_witness :
  exists st',
    main 2 [IntWord 1; IntWord 4; IntWord 7] = Ok st' /\
    console (cout st')
    = menuText ++ menuText
      ++ [Str "Finalizando pedido...\n"; Str "Pizzas en el pedido:\n";
          Str "- "; Str "Pizza Pepperoni"; Str " (Bs"; Num (Fin 40); Str ")\n"]
      ++ paymentText ++ invalidMethod
      ++ [Str "[Email] Enviando confirmación de pedido por Bs"; Num (Fin 40);
          Str "...\n"; Str "[Log] Pedido registrado por Bs"; Num (Fin 40);
          Str ".\n"; Str "Total a pagar: Bs"; Num (Fin 40); Endl;
          Str "Pagando Bs"; Num (Fin 40); Str " en efectivo.\n"].
Proof.
  destruct (invalid_payment_defaults_to_cash 2
              [IntWord 1; IntWord 4; IntWord 7]
              (stateOf (menuLoop 2
                 (mkState initialOrder
                    (mkIstream [IntWord 1; IntWord 4; IntWord 7] false) [])
                 None))
              (IntWord 7) [] eq_refl eq_refl eq_refl)
    as (st' & Hmain & Hcout & _).
  exists st'. split; [exact Hmain |]. rewrite Hcout. reflexivity.
Defined.

(** ** The orders of [main] are orders of the operations *)
Section Reachability.

Lemma ingredientLoop_builds (fuel : nat) (b : PizzaBuilder) (ing : option Z)
    (st : State) :
  exists l, fst (ingredientLoop fuel b ing st) = addAll b l.
Proof.
  revert b ing st. induction fuel as [| fuel IH]; intros b ing st.
  - exists []. reflexivity.
  - cbn [ingredientLoop].
    destruct (extract (cin (write st (print [Str "Ingrediente: "]))) ing)
      as [c1 [v |]]; [| exists []; reflexivity].
    assert (H : forall i st3,
               exists l, fst (if v =? 0 then (addIngredient b i, Ok st3)
                              else ingredientLoop fuel (addIngredient b i)
                                     (Some v) st3) = addAll b l).
    { intros i st3. destruct (v =? 0).
      - exists [i]. reflexivity.
      - destruct (IH (addIngredient b i) (Some v) st3) as [l Hl].
        exists (i :: l). exact Hl. }
    destruct (v =? 1); [apply (H Cheese) |].
    destruct (v =? 2); [apply (H Pepperoni) |].
    destruct (v =? 3); [apply (H Pineapple) |].
    destruct (v =? 0); [exists []; reflexivity |]. apply IH.
Qed.

Lemma choose_reachable (fuel : nat) (v : Z) (st : State) :
  exists ops, order (stateOf (choose fuel v st)) = fold_left perform ops (order st).
Proof.
  unfold choose.
  destruct (v =? 1); [exists [OpMenuPepperoni]; reflexivity |].
  destruct (v =? 2); [exists [OpMenuHawaiian]; reflexivity |].
  destruct (v =? 3).
  - pose proof (ingredientLoop_extends fuel newPizzaBuilder None
                  (write st (print ingredientText))) as [Ho _].
    destruct (ingredientLoop_builds fuel newPizzaBuilder None
                (write st (print ingredientText))) as [l Hl].
    destruct (ingredientLoop fuel newPizzaBuilder None
                (write st (print ingredientText))) as [b r].
    cbn [fst snd] in Ho, Hl. subst b.
    destruct r as [st1 | st1 | st1]; cbn [andThen stateOf order] in Ho |- *.
    + exists [OpCustom l]. rewrite Ho. reflexivity.
    + exists []. exact Ho.
    + exists []. exact Ho.
  - destruct (v =? 4); exists []; reflexivity.
Qed.

Lemma menuLoop_reachable (fuel : nat) (st : State) (opt : option Z) :
  exists ops,
    order (stateOf (menuLoop fuel st opt)) = fold_left perform ops (order st).
Proof.
  revert st opt. induction fuel as [| fuel IH]; intros st opt.
  - exists []. reflexivity.
  - cbn [menuLoop]. unfold menuBody.
    destruct (extract (cin (write st (print menuText))) opt) as [c1 [v |]];
      [| exists []; reflexivity].
    set (st2 := mkState _ c1 _).
    destruct (choose_reachable fuel v st2) as [ops Hops].
    change (order st2) with (order st) in Hops.
    destruct (choose fuel v st2) as [st1 | st1 | st1];
      cbn [andThen stateOf] in Hops |- *; try (exists ops; exact Hops).
    destruct (v =? 4); [exists ops; exact Hops |].
    destruct (IH st1 (Some v)) as [ops' Hops'].
    exists (ops ++ ops'). rewrite Hops', Hops, fold_left_app. reflexivity.
Qed.





End Reachability.

(** ** The end of the input *)
Section EndOfInput.

(** X3: with no word left for the payment menu, [paymentOption] is compared
    without ever having been written. *)
Lemma settle_without_input (st : State) :
  pending (cin st) = [] ->
  exists st',
    settle st = Undefined st' /\
    cout st' = cout st ++ listOrder (order st) ++ print paymentText.
Proof.
  intros Hp. unfold settle, extract. cbn [write cin order cout]. rewrite Hp.
  destruct (failbit (cin st)); eexists; (split; [reflexivity |]);
    cbn [cout]; rewrite <- app_assoc; reflexivity.
Qed.

Lemma settle_without_input_witness :
  exists st',
    main 1 [IntWord 4] = Undefined st' /\
    console (cout st')
    = menuText
      ++ [Str "Finalizando pedido...\n"; Str "Pizzas en el pedido:\n"]
      ++ paymentText.
Proof.
  destruct (settle_without_input
              (stateOf (menuLoop 1
                 (mkState initialOrder (mkIstream [IntWord 4] false) []) None))
              eq_refl) as (st' & Hs & Hc).
  exists st'. split; [exact Hs |]. rewrite Hc. reflexivity.
Defined.

End EndOfInput.

(** ** Sums saturate before they overflow *)
Section Saturation.

Lemma log2_bounds (n : Z) : 2 ^ 53 <= n -> 53 <= Z.log2 n /\ 2 ^ Z.log2 n <= n < 2 ^ (Z.log2 n + 1).
Proof.
  intros Hn. assert (0 < n) by (assert (0 < 2 ^ 53) by (apply Z.pow_pos_nonneg; lia); lia).
  split.
  - rewrite <- (Z.log2_pow2 53) by lia. apply Z.log2_le_mono. exact Hn.
  - replace (Z.log2 n + 1) with (Z.succ (Z.log2 n)) by lia.
    apply Z.log2_spec. assumption.
Qed.

(** Rounding never goes beyond the next power of two. *)
Lemma round_nat_next_pow2 (n : Z) :
  2 ^ 53 <= n -> round_nat n <= 2 ^ (Z.log2 n + 1).
Proof.
  intros Hn. destruct (log2_bounds n Hn) as [HL [Hlo Hhi]].
  unfold round_nat, prec. destruct (Z.ltb_spec n (2 ^ 53)) as [Hlt | _]; [lia |].
  change (53 - 1) with 52.
  set (e := Z.log2 n - 52) in *.
  assert (He : 1 <= e) by (subst e; lia).
  assert (Hpow : 2 ^ (Z.log2 n + 1) = 2 ^ 53 * 2 ^ e)
    by (rewrite <- Z.pow_add_r by lia; f_equal; subst e; lia).
  rewrite Hpow in *.
  assert (HP : 0 < 2 ^ e) by (apply Z.pow_pos_nonneg; lia).
  set (P := 2 ^ e) in *.
  pose proof (Z.div_mod n P ltac:(lia)) as Hd.
  pose proof (Z.mod_pos_bound n P HP) as Hm.
  assert (Hq : n / P < 2 ^ 53) by nia.
  assert (Hq' : forall q', q' <= n / P + 1 -> q' * P <= 2 ^ 53 * P).
  { intros q' Hle. apply Z.mul_le_mono_nonneg_r; lia. }
  apply Hq'.
  destruct (n mod P <? 2 ^ (e - 1)); [lia |].
  destruct (2 ^ (e - 1) <? n mod P); [lia |].
  destruct (Z.even (n / P)); lia.
Qed.

(** A power of two absorbs what is at most a quarter of its last place. *)
Lemma round_nat_absorbs (k n : Z) :
  53 <= k -> 2 ^ k <= n <= 2 ^ k + 2 ^ (k - 54) -> round_nat n = 2 ^ k.
Proof.
  intros Hk [Hlo Hhi].
  assert (H53 : 2 ^ 53 <= 2 ^ k) by (apply Z.pow_le_mono_r; lia).
  assert (Hsmall : 2 ^ (k - 54) < 2 ^ (k - 53)).
  { destruct (Z.eq_dec k 53) as [-> | Hne]; [reflexivity |].
    apply Z.pow_lt_mono_r; lia. }
  assert (Hhalf : 2 * 2 ^ (k - 53) = 2 ^ (k - 52)).
  { replace (k - 52) with (Z.succ (k - 53)) by lia.
    rewrite Z.pow_succ_r by lia. reflexivity. }
  assert (Hk2 : 2 ^ k = 2 ^ 52 * 2 ^ (k - 52)).
  { rewrite <- Z.pow_add_r by lia. f_equal. lia. }
  assert (Hpos : 0 < 2 ^ (k - 53)) by (apply Z.pow_pos_nonneg; lia).
  assert (HL : Z.log2 n = k).
  { apply Z.log2_unique; [lia |]. split; [exact Hlo |].
    replace (k + 1) with (Z.succ k) by lia. rewrite Z.pow_succ_r by lia.
    assert (2 ^ (k - 53) <= 2 ^ k) by (apply Z.pow_le_mono_r; lia). lia. }
  unfold round_nat, prec. destruct (Z.ltb_spec n (2 ^ 53)) as [Hlt | _]; [lia |].
  rewrite HL. change (53 - 1) with 52.
  replace (k - 52 - 1) with (k - 53) by lia.
  set (P := 2 ^ (k - 52)) in *. set (h := 2 ^ (k - 53)) in *.
  assert (Hq : n / P = 2 ^ 52).
  { symmetry. apply (Z.div_unique n P (2 ^ 52) (n - 2 ^ k)); lia. }
  assert (Hr : n mod P = n - 2 ^ k).
  { symmetry. apply (Z.mod_unique n P (2 ^ 52) (n - 2 ^ k)); lia. }
  rewrite Hq, Hr.
  destruct (Z.ltb_spec (n - 2 ^ k) h); [lia | lia].
Qed.

(** Below a power of two [2^k], or above it by at most [2^(k-54)], a sum
    rounds to at most [2^k]. *)
Lemma round_nat_cap (k n : Z) :
  53 <= k -> 0 <= n <= 2 ^ k + 2 ^ (k - 54) -> round_nat n <= 2 ^ k.
Proof.
  intros Hk [H0 Hhi].
  assert (H53 : 2 ^ 53 <= 2 ^ k) by (apply Z.pow_le_mono_r; lia).
  destruct (Z.lt_ge_cases n (2 ^ 53)) as [Hs | Hb].
  - rewrite round_nat_small by exact Hs. lia.
  - destruct (Z.lt_ge_cases n (2 ^ k)) as [Hlt | Hge].
    + pose proof (round_nat_next_pow2 n Hb) as Hr.
      assert (Z.log2 n < k) by (apply Z.log2_lt_pow2; lia).
      assert (2 ^ (Z.log2 n + 1) <= 2 ^ k)
        by (apply Z.pow_le_mono_r; lia).
      lia.
    + rewrite (round_nat_absorbs k n Hk); lia.
Qed.

Lemma within_add (k : Z) (a b : double) :
  53 <= k -> k < emax ->
  within (2 ^ k) a = true -> within (2 ^ (k - 54)) b = true ->
  within (2 ^ k) (add a b) = true.
Proof.
  intros Hk Hmax Ha Hb.
  destruct a as [x | | |], b as [y | | |]; try discriminate.
  cbn [within] in Ha, Hb.
  apply andb_prop in Ha as [Hx0 Hx], Hb as [Hy0 Hy].
  apply Z.leb_le in Hx0, Hx, Hy0, Hy.
  cbn [add]. unfold round_int.
  destruct (Z.leb_spec 0 (x + y)) as [_ | Hneg]; [| lia].
  pose proof (round_nat_cap k (x + y) Hk ltac:(lia)) as Hcap.
  pose proof (round_nat_nonneg (x + y) ltac:(lia)) as Hnn.
  assert (Hlt : 2 ^ k < 2 ^ emax) by (apply Z.pow_lt_mono_r; lia).
  destruct (Z.ltb_spec (round_nat (x + y)) (2 ^ emax)); [| lia].
  cbn [within]. apply andb_true_intro. split; apply Z.leb_le; lia.
Qed.

End Saturation.

Section NoOverflow.

Lemma addAll_within (l : list Ingredient) (b : PizzaBuilder) :
  within (2 ^ 58) (b_price b) = true ->
  within (2 ^ 58) (b_price (addAll b l)) = true.
Proof.
  revert b. induction l as [| i l IH]; intros b Hb; [exact Hb |].
  cbn [addAll fold_left]. apply IH.
  destruct i; cbn [addIngredient addCheese addPepperoni addPineapple b_price];
    (apply (within_add 58); [lia | unfold emax; lia | exact Hb | reflexivity]).
Qed.

Lemma perform_within (o : Order) (op : Op) :
  forallb (fun pizza => within (2 ^ 58) (getPrice pizza)) (pizzas o) = true ->
  forallb (fun pizza => within (2 ^ 58) (getPrice pizza)) (pizzas (perform o op))
  = true.
Proof.
  intros H.
  destruct op; cbn [perform addPizza addObserver clearOrder pizzas checkout
                    notifyObservers fst]; try exact H; try reflexivity;
    rewrite forallb_app, H; cbn [forallb andb]; rewrite andb_true_r;
    try reflexivity.
  unfold build. cbn [getPrice]. apply addAll_within. reflexivity.
Qed.

Lemma run_within (ops : list Op) (o : Order) :
  forallb (fun pizza => within (2 ^ 58) (getPrice pizza)) (pizzas o) = true ->
  forallb (fun pizza => within (2 ^ 58) (getPrice pizza))
    (pizzas (fold_left perform ops o)) = true.
Proof.
  revert o. induction ops as [| op ops IH]; intros o H; [exact H |].
  cbn [fold_left]. apply IH, perform_within, H.
Qed.

Lemma sumFrom_within (l : list Pizza) (acc : double) :
  within (2 ^ 112) acc = true ->
  forallb (fun pizza => within (2 ^ 58) (getPrice pizza)) l = true ->
  within (2 ^ 112) (sumFrom acc l) = true.
Proof.
  revert acc. induction l as [| pizza l IH]; intros acc Hacc Hall; [exact Hacc |].
  cbn [forallb] in Hall. apply andb_prop in Hall as [Hp Hl].
  cbn [sumFrom fold_left]. apply IH; [| exact Hl].
  apply (within_add 112); [lia | unfold emax; lia | exact Hacc | exact Hp].
Qed.

End NoOverflow.

(** X4: the sums of the program never overflow.  In every order reached by
    the operations, each price is an integer from 0 to [2^58] and the total
    is an integer from 0 to [2^112]: a sum that large absorbs what is added
    to it, long before the range of [double] ends. *)
Theorem prices_never_overflow (ops : list Op) :
  forallb (fun pizza => within (2 ^ 58) (getPrice pizza)) (pizzas (run ops))
  = true /\
  within (2 ^ 112) (calculateTotal (run ops)) = true.
Proof.
  assert (H : forallb (fun pizza => within (2 ^ 58) (getPrice pizza))
                (pizzas (run ops)) = true)
    by (apply (run_within ops newOrder); reflexivity).
  split; [exact H |].
  change (calculateTotal (run ops)) with (sumFrom (Fin 0) (pizzas (run ops))).
  apply sumFrom_within; [reflexivity | exact H].
Qed.

(** ** A well-formed session *)
Section Session.

Lemma print_app (a b : list Token) : print (a ++ b) = print a ++ print b.
Proof. apply map_app. Qed.

Lemma state_eta (st : State) (pend : list Word) :
  failbit (cin st) = false -> pending (cin st) = pend ->
  st = mkState (order st) (mkIstream pend false) (cout st).
Proof. destruct st as [o [p f] c]. cbn. intros -> ->. reflexivity. Qed.

(** One turn of the inner loop, once the extraction is known. *)
Lemma ingredientLoop_S (fuel : nat) (b : PizzaBuilder) (ing : option Z)
    (st : State) (c1 : istream) (v : Z) :
  extract (cin st) ing = (c1, Some v) ->
  ingredientLoop (S fuel) b ing st
  = let st2 := mkState (order st) c1 (cout st ++ print [Str "Ingrediente: "]) in
    let (builder1, st3) :=
      if v =? 1 then (addCheese b, st2)
      else if v =? 2 then (addPepperoni b, st2)
      else if v =? 3 then (addPineapple b, st2)
      else if v =? 0 then (b, st2)
      else (b, write st2 (print invalidOption)) in
    if v =? 0 then (builder1, Ok st3)
    else ingredientLoop fuel builder1 (Some v) st3.
Proof.
  intros He. cbn [ingredientLoop]. unfold write at 1 2 3. cbn [cin order cout].
  rewrite He. reflexivity.
Qed.

(** One turn of the outer loop, once the extraction is known. *)
Lemma menuLoop_S (fuel : nat) (st : State) (opt : option Z) (c1 : istream)
    (v : Z) :
  extract (cin st) opt = (c1, Some v) ->
  menuLoop (S fuel) st opt
  = choose fuel v (mkState (order st) c1 (cout st ++ print menuText))
    >>= fun st1 => if v =? 4 then Ok st1 else menuLoop fuel st1 (Some v).
Proof.
  intros He. cbn [menuLoop]. unfold menuBody. unfold write at 1 2 3.
  cbn [cin order cout]. rewrite He. reflexivity.
Qed.

Lemma ingredientCode_range (i : Ingredient) :
  INT_MIN <= ingredientCode i <= INT_MAX.
Proof. destruct i; unfold INT_MIN, INT_MAX; cbn; lia. Qed.

(** The inner loop reads a run of ingredient numbers and adds each. *)
Lemma ingredientLoop_reads (l : list Ingredient) (fuel : nat)
    (b : PizzaBuilder) (ing : option Z) (st : State) (rest : list Word) :
  failbit (cin st) = false ->
  pending (cin st) = map ingredientWord l ++ rest ->
  exists ing',
    ingredientLoop (List.length l + fuel) b ing st
    = ingredientLoop fuel (addAll b l) ing'
        (mkState (order st) (mkIstream rest false)
           (cout st ++ print (prompts (List.length l)))).
Proof.
  revert b ing st. induction l as [| i l IH]; intros b ing st Hf Hp.
  - exists ing. cbn [List.length Nat.add prompts repeat print map addAll fold_left].
    rewrite app_nil_r. rewrite <- (state_eta st rest Hf Hp). reflexivity.
  - cbn [map app] in Hp. cbn [List.length Nat.add].
    rewrite (ingredientLoop_S _ b ing st _ _
               (extract_valid (cin st) ing _ _ Hf Hp (ingredientCode_range i))).
    cbn zeta.
    assert (Hnext : forall b1,
              b1 = addIngredient b i ->
              exists ing',
                ingredientLoop (List.length l + fuel) b1 (Some (ingredientCode i))
                  (mkState (order st) (mkIstream (map ingredientWord l ++ rest) false)
                     (cout st ++ print [Str "Ingrediente: "]))
                = ingredientLoop fuel (addAll b (i :: l)) ing'
                    (mkState (order st) (mkIstream rest false)
                       (cout st ++ print (prompts (S (List.length l)))))).
    { intros b1 ->.
      destruct (IH (addIngredient b i) (Some (ingredientCode i))
                  (mkState (order st)
                     (mkIstream (map ingredientWord l ++ rest) false)
                     (cout st ++ print [Str "Ingrediente: "]))
                  eq_refl eq_refl) as [ing' Hing].
      exists ing'. rewrite Hing. cbn [order cout]. rewrite <- app_assoc.
      reflexivity. }
    destruct i; cbn [ingredientCode Z.eqb Pos.eqb];
      apply Hnext; reflexivity.
Qed.

(** A custom pizza typed in full: its ingredients, then 0. *)
Lemma ingredientLoop_custom (l : list Ingredient) (fuel : nat)
    (b : PizzaBuilder) (ing : option Z) (st : State) (rest : list Word) :
  failbit (cin st) = false ->
  pending (cin st) = map ingredientWord l ++ IntWord 0 :: rest ->
  (List.length l < fuel)%nat ->
  ingredientLoop fuel b ing st
  = (addAll b l,
     Ok (mkState (order st) (mkIstream rest false)
           (cout st ++ print (prompts (S (List.length l)))))).
Proof.
  intros Hf Hp Hfuel.
  destruct (ingredientLoop_reads l (fuel - List.length l) b ing st _ Hf Hp)
    as [ing' Hr].
  replace (List.length l + (fuel - List.length l))%nat with fuel in Hr by lia.
  rewrite Hr.
  destruct (fuel - List.length l)%nat as [| k] eqn:Hk; [lia |].
  rewrite (ingredientLoop_S k _ ing' _ (mkIstream rest false) 0);
    [| apply extract_valid; [reflexivity | reflexivity |
                             unfold INT_MIN, INT_MAX; lia]].
  cbn [Z.eqb order cout]. rewrite <- app_assoc, <- print_app.
  unfold prompts. rewrite <- repeat_cons. reflexivity.
Qed.

End Session.

(** The menu loop carries out a well-formed session.  When the input
    holds the words of a sequence of choices (menu pizzas, custom pizzas
    typed as 3, their ingredients and 0, numbers that are no option) and
    then 4, the loop ends normally, given one unit of fuel per word: the
    order is the one the operations of the choices lead to, the words after
    the 4 are left to be read, and the console shows the menu once per
    choice, with the ingredient dialogue or the invalid-option message, then
    the menu and "Finalizando pedido...". *)
Lemma menu_session (cs : list Choice) (fuel : nat) (st : State)
    (opt : option Z) (rest : list Word) :
  forallb choiceOk cs = true ->
  failbit (cin st) = false ->
  pending (cin st) = flat_map choiceWords cs ++ IntWord 4 :: rest ->
  (List.length (flat_map choiceWords cs) < fuel)%nat ->
  menuLoop fuel st opt
  = Ok (mkState (fold_left perform (flat_map choiceOps cs) (order st))
          (mkIstream rest false)
          (cout st
           ++ print (flat_map choiceOutput cs ++ menuText
                     ++ [Str "Finalizando pedido...\n"]))).
Proof.
  revert fuel st opt.
  induction cs as [| c cs IH]; intros fuel st opt Hok Hf Hp Hfuel.
  - destruct fuel as [| fuel]; [cbn in Hfuel; lia |].
    cbn [flat_map app] in Hp |- *.
    rewrite (menuLoop_S fuel st opt (mkIstream rest false) 4)
      by (apply extract_valid; [exact Hf | exact Hp |
                                unfold INT_MIN, INT_MAX; lia]).
    rewrite choose_four. cbn [andThen Z.eqb Pos.eqb fold_left].
    unfold write. cbn [order cin cout].
    rewrite <- app_assoc, <- print_app. reflexivity.
  - cbn [forallb] in Hok. apply andb_prop in Hok as [Hc Hcs].
    cbn [flat_map] in Hp, Hfuel |- *. rewrite length_app in Hfuel.
    rewrite <- app_assoc in Hp.
    destruct fuel as [| fuel]; [lia |].
    assert (Hstep : forall st1 v,
              failbit (cin st1) = false ->
              pending (cin st1) = flat_map choiceWords cs ++ IntWord 4 :: rest ->
              (List.length (flat_map choiceWords cs) < fuel)%nat ->
              order st1 = fold_left perform (choiceOps c) (order st) ->
              cout st1 = cout st ++ print (choiceOutput c) ->
              menuLoop fuel st1 (Some v)
              = Ok (mkState
                      (fold_left perform (choiceOps c ++ flat_map choiceOps cs)
                         (order st))
                      (mkIstream rest false)
                      (cout st
                       ++ print ((choiceOutput c ++ flat_map choiceOutput cs)
                                 ++ menuText ++ [Str "Finalizando pedido...\n"])))).
    { intros st1 v Hf1 Hp1 Hfuel1 Ho1 Hc1.
      rewrite (IH fuel st1 (Some v) Hcs Hf1 Hp1 Hfuel1).
      rewrite Ho1, Hc1, fold_left_app. rewrite <- !app_assoc.
      rewrite (print_app (choiceOutput c)). reflexivity. }
    destruct c as [| | l | z]; cbn [choiceWords app List.length] in Hp, Hfuel.
    + rewrite (menuLoop_S fuel st opt _ 1
                 (extract_valid (cin st) opt 1 _ Hf Hp
                    ltac:(unfold INT_MIN, INT_MAX; lia))).
      cbn [choose Z.eqb Pos.eqb andThen].
      apply Hstep; [reflexivity | reflexivity | lia | reflexivity |].
      unfold choiceOutput. rewrite app_nil_r. reflexivity.
    + rewrite (menuLoop_S fuel st opt _ 2
                 (extract_valid (cin st) opt 2 _ Hf Hp
                    ltac:(unfold INT_MIN, INT_MAX; lia))).
      cbn [choose Z.eqb Pos.eqb andThen].
      apply Hstep; [reflexivity | reflexivity | lia | reflexivity |].
      unfold choiceOutput. rewrite app_nil_r. reflexivity.
    + rewrite length_app in Hfuel. cbn [List.length] in Hfuel.
      rewrite length_map in Hfuel. rewrite <- app_assoc in Hp.
      rewrite (menuLoop_S fuel st opt _ 3
                 (extract_valid (cin st) opt 3 _ Hf Hp
                    ltac:(unfold INT_MIN, INT_MAX; lia))).
      cbn [choose Z.eqb Pos.eqb].
      match goal with
      | |- context [ingredientLoop fuel newPizzaBuilder None ?s] =>
          rewrite (ingredientLoop_custom l fuel newPizzaBuilder None s
                     (flat_map choiceWords cs ++ IntWord 4 :: rest)
                     eq_refl eq_refl ltac:(lia))
      end.
      cbn [andThen Z.eqb Pos.eqb].
      apply Hstep; [reflexivity | reflexivity | lia | reflexivity |].
      unfold write, choiceOutput. cbn [cout].
      rewrite <- !app_assoc, !print_app. reflexivity.
    + cbn [choiceOk] in Hc.
      apply andb_prop in Hc as [Hrange Hinv].
      apply andb_prop in Hrange as [Hlo Hhi].
      apply Z.leb_le in Hlo, Hhi.
      assert (Hz : z < 1 \/ 4 < z)
        by (apply orb_prop in Hinv as [H | H]; apply Z.ltb_lt in H; lia).
      rewrite (menuLoop_S fuel st opt _ z
                 (extract_valid (cin st) opt z _ Hf Hp (conj Hlo Hhi))).
      rewrite choose_invalid by exact Hz. cbn [andThen].
      destruct (Z.eqb_spec z 4); [lia |].
      apply Hstep; [reflexivity | reflexivity | lia | reflexivity |].
      unfold write, choiceOutput. cbn [cout].
      rewrite <- app_assoc, print_app. reflexivity.
Qed.

Section WholeRun.

Lemma transactions_app (t1 t2 : Trace) :
  transactions (t1 ++ t2) = transactions t1 ++ transactions t2.
Proof. apply filter_app. Qed.

Lemma transactions_print (ts : list Token) : transactions (print ts) = [].
Proof. induction ts as [| t ts IH]; [reflexivity | exact IH]. Qed.

Lemma transactions_notify (l : list Observer) (total : double) :
  transactions
    (flat_map (fun obs => CallUpdate obs total :: update obs total) l) = [].
Proof.
  induction l as [| obs l IH]; [reflexivity |].
  cbn [flat_map]. rewrite transactions_app, IH, app_nil_r.
  destruct obs; reflexivity.
Qed.

(** Only the adapter reaches the external service, once. *)
Lemma transactions_checkout (o : Order) (p : Payment) :
  transactions (snd (checkout o p))
  = match p with
    | ExternalPaymentAdapter api => [CallDoTransaction api (calculateTotal o)]
    | _ => []
    end.
Proof.
  unfold checkout, notifyObservers. cbn [snd].
  rewrite !transactions_app, transactions_notify, transactions_print.
  destruct p; reflexivity.
Qed.

Lemma session_observers (cs : list Choice) (o : Order) :
  observers (fold_left perform (flat_map choiceOps cs) o) = observers o.
Proof.
  revert o. induction cs as [| c cs IH]; intros o; [reflexivity |].
  cbn [flat_map]. rewrite fold_left_app, IH. destruct c; reflexivity.
Qed.

Lemma selectPayment_valid (k : Z) (st : State) :
  1 <= k <= 3 -> selectPayment k st = (paymentOf k, st).
Proof.
  intros Hk. unfold selectPayment, paymentOf.
  destruct (Z.eqb_spec k 1) as [-> | H1]; [reflexivity |].
  destruct (Z.eqb_spec k 2) as [-> | H2]; [reflexivity |].
  destruct (Z.eqb_spec k 3) as [-> | H3]; [reflexivity | lia].
Qed.

(** At the payment menu, one of the numbers 1, 2 and 3. *)
Lemma settle_valid_payment (st : State) (k : Z) (rest : list Word) :
  failbit (cin st) = false -> pending (cin st) = IntWord k :: rest ->
  1 <= k <= 3 ->
  settle st
  = Ok (mkState (clearOrder (order st)) (mkIstream rest false)
          (cout st ++ listOrder (order st) ++ print paymentText
           ++ snd (checkout (order st) (paymentOf k)))).
Proof.
  intros Hf Hp Hk. unfold settle. cbn [write cin order cout].
  rewrite (extract_valid (cin st) None k rest Hf Hp)
    by (unfold INT_MIN, INT_MAX; lia).
  rewrite selectPayment_valid by exact Hk.
  unfold checkout, notifyObservers. cbn [order cin cout snd].
  rewrite <- !app_assoc. reflexivity.
Qed.

End WholeRun.

(** X5: a well-formed session runs to its end.  When the input holds the
    words of a sequence of choices, then 4, then a payment number 1, 2 or 3,
    the program ends normally, given one unit of fuel per word of the
    choices: the console shows the dialogue of the choices, the listing of
    the order they lead to, the payment menu without warning and the
    checkout with the chosen payment object; both observers are notified
    once, then the chosen object is paid, all with the total of that order;
    the external service is called exactly when 3 was chosen; the order is
    left empty with its two observers and the rest of the input unread. *)
Theorem main_session (cs : list Choice) (k : Z) (rest : list Word)
    (fuel : nat) :
  forallb choiceOk cs = true ->
  1 <= k <= 3 ->
  (List.length (flat_map choiceWords cs) < fuel)%nat ->
  let o := fold_left perform (flat_map choiceOps cs) initialOrder in
  let total := calculateTotal o in
  exists st',
    main fuel (flat_map choiceWords cs ++ IntWord 4 :: IntWord k :: rest)
    = Ok st' /\
    order st' = initialOrder /\
    cin st' = mkIstream rest false /\
    cout st'
    = print (flat_map choiceOutput cs ++ menuText
             ++ [Str "Finalizando pedido...\n"])
      ++ listOrder o ++ print paymentText ++ snd (checkout o (paymentOf k)) /\
    invocations (cout st')
    = [CallUpdate EmailNotifier total; CallUpdate AuditLogger total;
       CallPay (paymentOf k) total] /\
    transactions (cout st')
    = if k =? 3 then [CallDoTransaction mkExternalPaymentAPI total] else [].
Proof.
  intros Hok Hk Hfuel o total.
  assert (Hobs : observers o = [EmailNotifier; AuditLogger])
    by (subst o; rewrite session_observers; reflexivity).
  assert (Hcalls : invocations (snd (checkout o (paymentOf k)))
                   = [CallUpdate EmailNotifier total; CallUpdate AuditLogger total;
                      CallPay (paymentOf k) total])
    by (rewrite checkout_calls, Hobs; reflexivity).
  assert (Htrans : transactions (snd (checkout o (paymentOf k)))
                   = if k =? 3 then [CallDoTransaction mkExternalPaymentAPI total]
                     else []).
  { rewrite transactions_checkout. unfold paymentOf.
    destruct (Z.eqb_spec k 2) as [-> | H2]; [reflexivity |].
    destruct (Z.eqb_spec k 3) as [-> | H3]; reflexivity. }
  eexists. split.
  - unfold main.
    rewrite (menu_session cs fuel
               (mkState initialOrder
                  (mkIstream
                     (flat_map choiceWords cs ++ IntWord 4 :: IntWord k :: rest)
                     false) [])
               None (IntWord k :: rest) Hok eq_refl eq_refl Hfuel).
    cbn [andThen].
    eapply settle_valid_payment; [reflexivity | reflexivity | exact Hk].
  - cbn [order cin cout]. fold o.
    split; [unfold clearOrder; rewrite Hobs; reflexivity |].
    split; [reflexivity |].
    split; [reflexivity |].
    split.
    + rewrite listOrder_lines, !invocations_app, !invocations_print.
      exact Hcalls.
    + rewrite listOrder_lines, !transactions_app, !transactions_print.
      exact Htrans.
Qed.

(** ** Before the checkout nothing is notified or paid *)
Section Quiet.

Lemma quietly_refl (st : State) : quietly st st.
Proof. split; [reflexivity |]. exists []. symmetry. apply app_nil_r. Qed.

Lemma quietly_trans (st1 st2 st3 : State) :
  quietly st1 st2 -> quietly st2 st3 -> quietly st1 st3.
Proof.
  intros [Ho1 [ts1 Hc1]] [Ho2 [ts2 Hc2]]. split; [congruence |].
  exists (ts1 ++ ts2). rewrite Hc2, Hc1, print_app. symmetry. apply app_assoc.
Qed.

Lemma quietly_write (st : State) (ts : list Token) :
  quietly st (write st (print ts)).
Proof. split; [reflexivity |]. exists ts. reflexivity. Qed.

Lemma quietly_cin (st : State) (c : istream) :
  quietly st (mkState (order st) c (cout st)).
Proof. split; [reflexivity |]. exists []. symmetry. apply app_nil_r. Qed.

Lemma quietly_addPizza (st : State) (pizza : Pizza) :
  quietly st (mkState (addPizza (order st) pizza) (cin st) (cout st)).
Proof. split; [reflexivity |]. exists []. symmetry. apply app_nil_r. Qed.

Lemma ingredientLoop_quietly (fuel : nat) (b : PizzaBuilder) (ing : option Z)
    (st : State) :
  quietly st (stateOf (snd (ingredientLoop fuel b ing st))).
Proof.
  revert b ing st. induction fuel as [| fuel IH]; intros b ing st.
  - apply quietly_refl.
  - cbn [ingredientLoop].
    destruct (extract (cin (write st (print [Str "Ingrediente: "]))) ing)
      as [c1 [v |]].
    + set (st2 := mkState _ c1 _).
      assert (H2 : quietly st st2).
      { apply (quietly_trans _ (write st (print [Str "Ingrediente: "])));
          [apply quietly_write | apply quietly_cin]. }
      assert (H3 : forall b1 st3,
                 quietly st st3 ->
                 quietly st (stateOf (snd (if v =? 0 then (b1, Ok st3)
                            else ingredientLoop fuel b1 (Some v) st3)))).
      { intros b1 st3 Hq. destruct (v =? 0); [exact Hq |].
        apply (quietly_trans _ st3); [exact Hq | apply IH]. }
      destruct (v =? 1); [apply H3, H2 |].
      destruct (v =? 2); [apply H3, H2 |].
      destruct (v =? 3); [apply H3, H2 |].
      destruct (Z.eqb_spec v 0) as [H0 | H0]; [exact H2 |].
      specialize (H3 b (write st2 (print invalidOption))).
      destruct (Z.eqb_spec v 0) as [H0' | _]; [contradiction |].
      apply H3. apply (quietly_trans _ st2); [exact H2 | apply quietly_write].
    + apply (quietly_trans _ (write st (print [Str "Ingrediente: "])));
        [apply quietly_write | apply quietly_cin].
Qed.

Lemma choose_quietly (fuel : nat) (v : Z) (st : State) :
  quietly st (stateOf (choose fuel v st)).
Proof.
  unfold choose.
  destruct (v =? 1); [apply quietly_addPizza |].
  destruct (v =? 2); [apply quietly_addPizza |].
  destruct (v =? 3).
  - pose proof (ingredientLoop_quietly fuel newPizzaBuilder None
                  (write st (print ingredientText))) as Hq.
    destruct (ingredientLoop fuel newPizzaBuilder None
                (write st (print ingredientText))) as [b r].
    cbn [snd] in Hq.
    apply (quietly_trans _ (write st (print ingredientText)));
      [apply quietly_write |].
    destruct r as [st1 | st1 | st1]; cbn [andThen stateOf] in Hq |- *;
      exact Hq.
  - destruct (v =? 4); apply quietly_write.
Qed.

Lemma menuLoop_quietly (fuel : nat) (st : State) (opt : option Z) :
  quietly st (stateOf (menuLoop fuel st opt)).
Proof.
  revert st opt. induction fuel as [| fuel IH]; intros st opt.
  - apply quietly_refl.
  - cbn [menuLoop]. unfold menuBody.
    destruct (extract (cin (write st (print menuText))) opt) as [c1 [v |]].
    + set (st2 := mkState _ c1 _).
      assert (H2 : quietly st st2).
      { apply (quietly_trans _ (write st (print menuText)));
          [apply quietly_write | apply quietly_cin]. }
      pose proof (choose_quietly fuel v st2) as Hc.
      destruct (choose fuel v st2) as [st1 | st1 | st1];
        cbn [andThen stateOf] in Hc |- *;
        try (apply (quietly_trans _ st2); [exact H2 | exact Hc]).
      destruct (v =? 4).
      * apply (quietly_trans _ st2); [exact H2 | exact Hc].
      * apply (quietly_trans _ st1);
          [apply (quietly_trans _ st2); [exact H2 | exact Hc] | apply IH].
    + apply (quietly_trans _ (write st (print menuText)));
        [apply quietly_write | apply quietly_cin].
Qed.

End Quiet.

Section NormalRun.

(** A run of [settle] that ends normally wrote to the console, then checked
    out with some payment object, and left the order cleared. *)
Lemma settle_ok (st st' : State) :
  settle st = Ok st' ->
  exists p ts,
    cout st' = (cout st ++ print ts) ++ snd (checkout (order st) p) /\
    order st' = clearOrder (order st).
Proof.
  unfold settle. cbn [write cin order cout].
  destruct (extract (cin st) None) as [c1 [v |]]; [| discriminate].
  unfold selectPayment.
  destruct (v =? 1); [| destruct (v =? 2); [| destruct (v =? 3)]];
    unfold write, checkout, notifyObservers; cbn [order cin cout];
    intros [= <-]; cbn [order cout snd].
  - exists CashPayment, (Str "Pizzas en el pedido:\n"
                         :: flat_map itemLine (pizzas (order st)) ++ paymentText).
    split; [| reflexivity]. f_equal.
    rewrite listOrder_lines, app_comm_cons, !print_app, !app_assoc. reflexivity.
  - exists CardPayment, (Str "Pizzas en el pedido:\n"
                         :: flat_map itemLine (pizzas (order st)) ++ paymentText).
    split; [| reflexivity]. f_equal.
    rewrite listOrder_lines, app_comm_cons, !print_app, !app_assoc. reflexivity.
  - exists (ExternalPaymentAdapter mkExternalPaymentAPI),
      (Str "Pizzas en el pedido:\n"
       :: flat_map itemLine (pizzas (order st)) ++ paymentText).
    split; [| reflexivity]. f_equal.
    rewrite listOrder_lines, app_comm_cons, !print_app, !app_assoc. reflexivity.
  - exists CashPayment, (Str "Pizzas en el pedido:\n"
                         :: flat_map itemLine (pizzas (order st)) ++ paymentText
                            ++ invalidMethod).
    split; [| reflexivity]. f_equal.
    rewrite listOrder_lines, app_comm_cons, !print_app, !app_assoc. reflexivity.
Qed.

End NormalRun.

(** X6: whatever the input, a run that ends normally has notified the email
    notifier and then the audit logger once each and then paid once, all
    with one and the same non-negative total, and nothing was notified or
    paid before; the external service was called once with that total when
    the payment object is the adapter and never otherwise; the order is left
    empty with its two observers. *)
Theorem normal_run_calls (fuel : nat) (input : list Word) (st' : State) :
  main fuel input = Ok st' ->
  exists p total,
    invocations (cout st')
    = [CallUpdate EmailNotifier total; CallUpdate AuditLogger total;
       CallPay p total] /\
    nonneg total = true /\
    order st' = initialOrder /\
    transactions (cout st')
    = match p with
      | ExternalPaymentAdapter api => [CallDoTransaction api total]
      | _ => []
      end.
Proof.
  unfold main.
  pose proof (menuLoop_quietly fuel
                (mkState initialOrder (mkIstream input false) []) None)
    as [Hobs [ts Hts]].
  destruct (menuLoop_reachable fuel
              (mkState initialOrder (mkIstream input false) []) None)
    as [ops Hops].
  destruct (menuLoop fuel (mkState initialOrder (mkIstream input false) []) None)
    as [st1 | st1 | st1]; cbn [andThen stateOf] in *; try discriminate.
  cbn [order cout app] in Hobs, Hts, Hops.
  intros Hs. destruct (settle_ok st1 st' Hs) as (p & ts' & Hc & Ho).
  exists p, (calculateTotal (order st1)). split; [| split; [| split]].
  - rewrite Hc, Hts, !invocations_app, !invocations_print, checkout_calls, Hobs.
    reflexivity.
  - change (calculateTotal (order st1))
      with (sumFrom (Fin 0) (pizzas (order st1))).
    apply sumFrom_nonneg; [reflexivity |]. rewrite Hops.
    apply (run_pricesNonneg ops initialOrder). constructor.
  - rewrite Ho. unfold clearOrder. rewrite Hobs. reflexivity.
  - rewrite Hc, Hts, !transactions_app, !transactions_print.
    apply transactions_checkout.
Qed.

(** ** When the input runs out or is no number *)
Section InputEnds.

Lemma extract_exhausted (c : istream) (old : option Z) :
  exhausted c = true ->
  exists c', extract c old = (c', old) /\ exhausted c' = true.
Proof.
  unfold exhausted, extract. destruct (failbit c) eqn:Hf.
  - intros _. exists c. rewrite Hf. split; reflexivity.
  - destruct (pending c); [| discriminate]. intros _.
    exists (mkIstream [] true). split; reflexivity.
Qed.

Lemma extract_junk (c : istream) (old : option Z) (rest : list Word) :
  failbit c = false -> pending c = Junk :: rest ->
  extract c old = (mkIstream (Junk :: rest) true, Some 0).
Proof. intros Hf Hp. unfold extract. rewrite Hf, Hp. reflexivity. Qed.

(** With nothing to read, a fresh [ingrediente] is compared unwritten. *)
Lemma ingredientLoop_unwritten (fuel : nat) (b : PizzaBuilder) (st : State) :
  exhausted (cin st) = true ->
  exists c',
    ingredientLoop (S fuel) b None st
    = (b, Undefined (mkState (order st) c'
                       (cout st ++ print [Str "Ingrediente: "]))).
Proof.
  intros Hx. destruct (extract_exhausted (cin st) None Hx) as (c' & He & _).
  exists c'. cbn [ingredientLoop]. unfold write. cbn [cin order cout].
  rewrite He. reflexivity.
Qed.

Lemma ingredientLoop_exhausted_not_ok (fuel : nat) (b : PizzaBuilder)
    (st st' : State) :
  exhausted (cin st) = true ->
  snd (ingredientLoop fuel b None st) <> Ok st'.
Proof.
  intros Hx. destruct fuel as [| fuel]; [discriminate |].
  destruct (ingredientLoop_unwritten fuel b st Hx) as [c' ->]. discriminate.
Qed.

End InputEnds.

(** X7: when the input is exhausted (the stream has failed or no word is
    left) while [option] is not 4, the menu loop never ends normally,
    however many turns it is given: the payment menu and the checkout are
    never reached. *)
Theorem exhausted_never_checks_out (fuel : nat) (st st' : State)
    (opt : option Z) :
  exhausted (cin st) = true -> opt <> Some 4 ->
  menuLoop fuel st opt <> Ok st'.
Proof.
  revert st opt. induction fuel as [| fuel IH]; intros st opt Hx Hopt;
    [discriminate |].
  destruct (extract_exhausted (cin st) opt Hx) as (c' & He & Hx').
  cbn [menuLoop]. unfold menuBody. unfold write at 1 2 3.
  cbn [cin order cout]. rewrite He.
  destruct opt as [v |]; [| discriminate].
  set (st2 := mkState (order st) c' (cout st ++ print menuText)).
  assert (Hc : forall st1, choose fuel v st2 = Ok st1 -> exhausted (cin st1) = true).
  { unfold choose.
    destruct (v =? 1); [intros st1 [= <-]; exact Hx' |].
    destruct (v =? 2); [intros st1 [= <-]; exact Hx' |].
    destruct (v =? 3).
    - pose proof (ingredientLoop_exhausted_not_ok fuel newPizzaBuilder
                    (write st2 (print ingredientText))) as Hn.
      destruct (ingredientLoop fuel newPizzaBuilder None
                  (write st2 (print ingredientText))) as [b r].
      cbn [snd] in Hn. destruct r as [s | s | s]; cbn [andThen];
        try discriminate.
      exfalso. exact (Hn s Hx' eq_refl).
    - destruct (v =? 4); intros st1 [= <-]; exact Hx'. }
  destruct (choose fuel v st2) as [st1 | st1 | st1]; cbn [andThen];
    try discriminate.
  destruct (Z.eqb_spec v 4) as [-> | Hv]; [congruence |].
  apply IH; [apply Hc; reflexivity | congruence].
Qed.

(** X8: when the input is exhausted after a menu pizza was chosen, [option]
    keeps its value and every further turn adds that pizza again: after
    [fuel] turns the loop is still running and the order holds [fuel] more
    Pepperoni pizzas (after option 1) or Hawaiian pizzas (after option 2). *)
Theorem eof_repeats_menu_choice (fuel : nat) (st : State) :
  exhausted (cin st) = true ->
  (exists st',
     menuLoop fuel st (Some 1) = OutOfFuel st' /\
     pizzas (order st') = pizzas (order st) ++ repeat PepperoniPizza fuel) /\
  (exists st',
     menuLoop fuel st (Some 2) = OutOfFuel st' /\
     pizzas (order st') = pizzas (order st) ++ repeat HawaiianPizza fuel).
Proof.
  revert st. induction fuel as [| fuel IH]; intros st Hx.
  - split; exists st; (split; [reflexivity |]);
      cbn [repeat]; rewrite app_nil_r; reflexivity.
  - split.
    + destruct (extract_exhausted (cin st) (Some 1) Hx) as (c' & He & Hx').
      rewrite (menuLoop_S fuel st (Some 1) c' 1 He).
      cbn [choose Z.eqb Pos.eqb andThen].
      match goal with
      | |- exists _, menuLoop fuel ?s _ = _ /\ _ =>
          destruct (proj1 (IH s Hx')) as (st' & Hl & Hp)
      end.
      exists st'. split; [exact Hl |]. rewrite Hp.
      cbn [order addPizza pizzas repeat]. rewrite <- app_assoc. reflexivity.
    + destruct (extract_exhausted (cin st) (Some 2) Hx) as (c' & He & Hx').
      rewrite (menuLoop_S fuel st (Some 2) c' 2 He).
      cbn [choose Z.eqb Pos.eqb andThen].
      match goal with
      | |- exists _, menuLoop fuel ?s _ = _ /\ _ =>
          destruct (proj2 (IH s Hx')) as (st' & Hl & Hp)
      end.
      exists st'. split; [exact Hl |]. rewrite Hp.
      cbn [order addPizza pizzas repeat]. rewrite <- app_assoc. reflexivity.
Qed.

(** X9: when the input is exhausted after an ingredient was chosen,
    [ingrediente] keeps its value and every further turn of the inner loop
    adds that ingredient again: after [fuel] turns the loop is still
    running, with [fuel] prompts written and the ingredient added [fuel]
    times. *)
Theorem eof_repeats_ingredient (fuel : nat) (b : PizzaBuilder) (i : Ingredient)
    (st : State) :
  exhausted (cin st) = true ->
  exists st',
    ingredientLoop fuel b (Some (ingredientCode i)) st
    = (addAll b (repeat i fuel), OutOfFuel st') /\
    order st' = order st /\
    cout st' = cout st ++ print (prompts fuel).
Proof.
  revert b st. induction fuel as [| fuel IH]; intros b st Hx.
  - exists st. split; [reflexivity |]. split; [reflexivity |].
    symmetry. apply app_nil_r.
  - destruct (extract_exhausted (cin st) (Some (ingredientCode i)) Hx)
      as (c' & He & Hx').
    rewrite (ingredientLoop_S fuel b _ st c' _ He). cbn zeta.
    assert (Hnext : exists st',
              ingredientLoop fuel (addIngredient b i) (Some (ingredientCode i))
                (mkState (order st) c' (cout st ++ print [Str "Ingrediente: "]))
              = (addAll b (repeat i (S fuel)), OutOfFuel st') /\
              order st' = order st /\
              cout st' = cout st ++ print (prompts (S fuel))).
    { destruct (IH (addIngredient b i)
                  (mkState (order st) c' (cout st ++ print [Str "Ingrediente: "]))
                  Hx') as (st' & Hl & Ho & Hc).
      exists st'. split; [exact Hl |]. split; [exact Ho |].
      rewrite Hc. cbn [cout]. rewrite <- app_assoc. reflexivity. }
    destruct i; cbn [ingredientCode Z.eqb Pos.eqb]; exact Hnext.
Qed.


(** X11: text that is no integer at the ingredient prompt is stored as 0, so
    it ends the custom pizza like "0. Terminar", without any message: the
    pizza is added with the ingredients read so far.  The stream has then
    failed and [option] is still 3, so the next turn starts another custom
    pizza, whose fresh [ingrediente] is compared without ever having been
    written. *)
Theorem junk_ingredient_ends_pizza (l : list Ingredient) (fuel : nat)
    (st : State) (opt : option Z) (rest : list Word) :
  failbit (cin st) = false ->
  pending (cin st) = IntWord 3 :: map ingredientWord l ++ Junk :: rest ->
  (List.length l + 2 < fuel)%nat ->
  exists st',
    menuLoop fuel st opt = Undefined st' /\
    order st' = addPizza (order st) (build (addAll newPizzaBuilder l)) /\
    cout st'
    = cout st
      ++ print (menuText ++ ingredientText ++ prompts (S (List.length l))
                ++ menuText ++ ingredientText ++ prompts 1).
Proof.
  intros Hf Hp Hfuel.
  destruct fuel as [| [| fuel]]; [lia | lia |].
  rewrite (menuLoop_S (S fuel) st opt _ 3
             (extract_valid (cin st) opt 3 _ Hf Hp
                ltac:(unfold INT_MIN, INT_MAX; lia))).
  cbn [choose Z.eqb Pos.eqb].
  match goal with
  | |- context [ingredientLoop (S fuel) newPizzaBuilder None ?s] =>
      destruct (ingredientLoop_reads l (S fuel - List.length l) newPizzaBuilder
                  None s (Junk :: rest) eq_refl eq_refl) as [ing' Hr]
  end.
  replace (List.length l + (S fuel - List.length l))%nat with (S fuel) in Hr
    by lia.
  rewrite Hr. clear Hr.
  destruct (S fuel - List.length l)%nat as [| k] eqn:Hk; [lia |].
  match goal with
  | |- context [ingredientLoop (S k) ?b1 ing' ?s] =>
      rewrite (ingredientLoop_S k b1 ing' s _ 0
                 (extract_junk (cin s) ing' rest eq_refl eq_refl))
  end.
  cbn [Z.eqb andThen Pos.eqb order cin cout].
  match goal with
  | |- context [menuLoop (S fuel) ?s (Some 3)] =>
      rewrite (menuLoop_S fuel s (Some 3) (mkIstream (Junk :: rest) true) 3
                 eq_refl)
  end.
  cbn [choose Z.eqb Pos.eqb order cin cout].
  match goal with
  | |- context [ingredientLoop fuel newPizzaBuilder None ?s] =>
      destruct fuel as [| fuel']; [lia |];
      destruct (ingredientLoop_unwritten fuel' newPizzaBuilder s eq_refl)
        as [c' Hu]
  end.
  rewrite Hu. cbn [andThen]. eexists. split; [reflexivity |].
  split; [reflexivity |].
  unfold write. cbn [cout order].
  rewrite <- !app_assoc, !print_app. unfold prompts at 3. cbn [repeat].
  assert (Hrep : print (prompts (List.length l)) ++ print [Str "Ingrediente: "]
                 = print (prompts (S (List.length l)))).
  { rewrite <- print_app. unfold prompts. rewrite <- repeat_cons. reflexivity. }
  rewrite <- Hrep. rewrite <- !app_assoc. reflexivity.
Qed.

Section Permuted.

Lemma exactSum_permutation (l l' : list Pizza) :
  Permutation l l' -> exactSum l = exactSum l'.
Proof.
  induction 1 as [| x l l' _ IH | x y l | l l' l'' _ IH1 _ IH2];
    unfold exactSum in *; cbn [fold_right] in *; lia.
Qed.

Lemma forallb_permutation (f : Pizza -> bool) (l l' : list Pizza) :
  Permutation l l' -> forallb f l = forallb f l'.
Proof.
  induction 1 as [| x l l' _ IH | x y l | l l' l'' _ IH1 _ IH2];
    cbn [forallb].
  - reflexivity.
  - rewrite IH. reflexivity.
  - destruct (f x), (f y); reflexivity.
  - congruence.
Qed.

End Permuted.

(** X12: within the exact range the total does not depend on the order of
    the items: two orders whose items are the same up to their order, with
    prices that are non-negative integers of sum at most [2^53], have the
    same total, whatever their observers. *)
Theorem total_permutation (o o' : Order) :
  Permutation (pizzas o) (pizzas o') ->
  forallb (fun pizza => isNat (getPrice pizza)) (pizzas o) = true ->
  exactSum (pizzas o) <= 2 ^ 53 ->
  calculateTotal o = calculateTotal o'.
Proof.
  intros Hperm Hall Hle.
  change (calculateTotal o) with (sumFrom (Fin 0) (pizzas o)).
  change (calculateTotal o') with (sumFrom (Fin 0) (pizzas o')).
  rewrite (sumFrom_exact (pizzas o) 0) by (lia || exact Hall).
  rewrite (sumFrom_exact (pizzas o') 0).
  - rewrite (exactSum_permutation _ _ Hperm). reflexivity.
  - lia.
  - rewrite <- (forallb_permutation _ _ _ Hperm). exact Hall.
  - rewrite <- (exactSum_permutation _ _ Hperm). lia.
Qed.

(** ** Samples of the properties above *)

Lemma total_permutation_witness :
  calculateTotal (mkOrder [PepperoniPizza; HawaiianPizza] [EmailNotifier])
  = calculateTotal (mkOrder [HawaiianPizza; PepperoniPizza] []).
Proof.
  apply (total_permutation
           (mkOrder [PepperoniPizza; HawaiianPizza] [EmailNotifier])
           (mkOrder [HawaiianPizza; PepperoniPizza] [])).
  - apply perm_swap.
  - reflexivity.
  - vm_compute. discriminate.
Defined.

(** The scenario of a Pepperoni pizza, a custom pizza of cheese and
    pineapple, the number 9, a Hawaiian pizza, then 4 and payment by card. *)
Lemma main_session_witness :
  exists st',
    main 9 [IntWord 1; IntWord 3; IntWord 1; IntWord 3; IntWord 0; IntWord 9;
            IntWord 2; IntWord 4; IntWord 2]
    = Ok st' /\
    order st' = initialOrder /\
    invocations (cout st')
    = [CallUpdate EmailNotifier (Fin 108); CallUpdate AuditLogger (Fin 108);
       CallPay CardPayment (Fin 108)] /\
    transactions (cout st') = [].
Proof.
  destruct (main_session
              [ChoosePepperoni; ChooseCustom [Cheese; Pineapple]; ChooseOther 9;
               ChooseHawaiian] 2 [] 9 eq_refl ltac:(lia) ltac:(cbn; lia))
    as (st' & Hmain & Ho & _ & _ & Hcalls & Htrans).
  exists st'. repeat split; assumption.
Defined.

Lemma normal_run_calls_witness :
  exists p total,
    invocations (cout (stateOf (main 3 [IntWord 2; IntWord 4; IntWord 3])))
    = [CallUpdate EmailNotifier total; CallUpdate AuditLogger total;
       CallPay p total] /\
    nonneg total = true /\
    order (stateOf (main 3 [IntWord 2; IntWord 4; IntWord 3])) = initialOrder /\
    transactions (cout (stateOf (main 3 [IntWord 2; IntWord 4; IntWord 3])))
    = match p with
      | ExternalPaymentAdapter api => [CallDoTransaction api total]
      | _ => []
      end.
Proof.
  exact (normal_run_calls 3 [IntWord 2; IntWord 4; IntWord 3]
           (stateOf (main 3 [IntWord 2; IntWord 4; IntWord 3])) eq_refl).
Defined.

(** The input 1, 2 and nothing more. *)
Lemma exhausted_never_checks_out_witness :
  menuLoop 40 (mkState (addPizza (addPizza initialOrder PepperoniPizza)
                          HawaiianPizza)
                 (mkIstream [] false) []) (Some 2)
  <> Ok (mkState initialOrder (mkIstream [] false) []).
Proof.
  apply (exhausted_never_checks_out 40); [reflexivity | discriminate].
Defined.

Lemma eof_repeats_menu_choice_witness :
  exists st',
    menuLoop 5 (mkState initialOrder (mkIstream [] false) []) (Some 1)
    = OutOfFuel st' /\
    pizzas (order st') = repeat PepperoniPizza 5.
Proof.
  exact (proj1 (eof_repeats_menu_choice 5
                  (mkState initialOrder (mkIstream [] false) []) eq_refl)).
Defined.

Lemma eof_repeats_ingredient_witness :
  exists st',
    ingredientLoop 4 newPizzaBuilder (Some 1)
      (mkState initialOrder (mkIstream [] false) [])
    = (addAll newPizzaBuilder [Cheese; Cheese; Cheese; Cheese], OutOfFuel st') /\
    order st' = initialOrder /\
    cout st' = print (prompts 4).
Proof.
  exact (eof_repeats_ingredient 4 newPizzaBuilder Cheese
           (mkState initialOrder (mkIstream [] false) []) eq_refl).
Defined.


Lemma junk_ingredient_ends_pizza_witness :
  exists st',
    menuLoop 4 (mkState initialOrder
                  (mkIstream [IntWord 3; IntWord 1; Junk; IntWord 4] false) [])
      None
    = Undefined st' /\
    order st' = addPizza initialOrder (CustomPizza "Pizza Personalizada" (Fin 10)) /\
    cout st'
    = print (menuText ++ ingredientText ++ prompts 2
             ++ menuText ++ ingredientText ++ prompts 1).
Proof.
  exact (junk_ingredient_ends_pizza [Cheese] 4
           (mkState initialOrder
              (mkIstream [IntWord 3; IntWord 1; Junk; IntWord 4] false) [])
           None [IntWord 4] eq_refl eq_refl ltac:(cbn; lia)).
Defined.

(** ** The prompt after a choice that is no option *)
Section PromptAgain.


End PromptAgain.



